(** * pyarrow_pandas_converter: flattening of nested Arrow tables

    A shallow embedding of [pyarrow_pandas_converter.py].  The module
    has two parts: the class [PyArrowTableFlattener], which holds one
    optional table and rewrites it pass by pass, and the stateless
    function [to_pandas_safe].

    The columnar engine (pyarrow) is an external collaborator.  The
    capabilities the program calls (type predicates, column access,
    struct decomposition, list concatenation, table construction,
    indexing of a column, array construction from scalars) are modelled
    in the first part of the file on logical values: a column is its
    type together with the sequence of its cells, chunk boundaries are
    not represented. *)

From Stdlib Require Import List String Ascii ZArith Bool Arith Lia.
Import ListNotations.
Open Scope string_scope.
Open Scope list_scope.

Set Warnings "-register-all".

(* ================================================================== *)
(** ** Exceptions and fallible computations *)

Inductive exn : Type :=
| ValueError (msg : string)   (* raised by the program itself *)
| KeyError                    (* Table.column: name absent or ambiguous *)
| TypeError                   (* len() of an object that has no len *)
| IndexError                  (* scalar index out of range *)
| ArrowInvalid                (* pa.table: columns of unequal length *)
| AttributeError.             (* a types_mapper result that is no dtype *)

Inductive result (A : Type) : Type :=
| Ok (a : A)
| Raise (e : exn).

Arguments Ok {A} a.
Arguments Raise {A} e.

Definition bind {A B : Type} (r : result A) (k : A -> result B) : result B :=
  match r with
  | Ok a => k a
  | Raise e => Raise e
  end.

Declare Scope result_scope.
Delimit Scope result_scope with result.
Notation "x <- r ;; k" := (bind r (fun x => k))
  (at level 100, r at next level, right associativity) : result_scope.
Notation "' p <- r ;; k" := (bind r (fun x => let p := x in k))
  (at level 100, p pattern, r at next level, right associativity) : result_scope.
Open Scope result_scope.

(** A [for] loop whose body may raise: the accumulator is threaded
    through the iterations and the first exception ends the loop. *)
Fixpoint for_each {A S : Type} (body : S -> A -> result S) (xs : list A) (s : S)
  : result S :=
  match xs with
  | [] => Ok s
  | x :: rest => s' <- body s x ;; for_each body rest s'
  end.

(* ================================================================== *)
(** ** The engine's data model *)

Inductive PrimType : Type :=
| null_ | int8 | int16 | int32 | int64
| uint8 | uint16 | uint32 | uint64
| bool_ | float16 | float32 | float64
| string_ | large_string | binary | date32 | timestamp.

(** Data types.  [TLargeList], [TFixedSizeList] and [TUnion] are nested
    in the engine's sense without being struct, list or map. *)
Inductive DataType : Type :=
| TPrim (p : PrimType)
| TStruct (fields : list (string * DataType))
| TList (value_type : DataType)
| TLargeList (value_type : DataType)
| TFixedSizeList (value_type : DataType) (size : nat)
| TMap (key_type item_type : DataType)
| TUnion (fields : list (string * DataType)).

(** Cell values.  A struct cell holds one value per sub-field, a list
    cell its elements, a map cell its stored (key, value) entries: an
    ordered sequence of pairs, not a deduplicated mapping. *)
Inductive Scalar : Type :=
| SNull
| SInt (z : Z)
| SBool (b : bool)
| SFloat (bits : Z)
| SStr (s : string)
| SList (elems : list Scalar)
| SStruct (children : list Scalar)
| SMap (entries : list (Scalar * Scalar)).

(** A (chunked) array: its type and its cells in logical order. *)
Record Column : Type := mkColumn { ctype : DataType; cvalues : list Scalar }.

Definition Field : Type := (string * DataType)%type.

(** A table is an ordered sequence of named columns; names need not be
    unique. *)
Definition Table : Type := list (string * Column).

Definition schema (t : Table) : list Field :=
  map (fun nc => (fst nc, ctype (snd nc))) t.

Definition len (c : Column) : nat := List.length (cvalues c).

(** *** Type-kind predicates ([pa.types.is_*]) *)

Definition is_struct (ty : DataType) : bool :=
  match ty with TStruct _ => true | _ => false end.

Definition is_list (ty : DataType) : bool :=
  match ty with TList _ => true | _ => false end.

Definition is_map (ty : DataType) : bool :=
  match ty with TMap _ _ => true | _ => false end.

Definition is_nested (ty : DataType) : bool :=
  match ty with TPrim _ => false | _ => true end.

(** Iterating a struct type yields its sub-fields in order. *)
Definition type_fields (ty : DataType) : list Field :=
  match ty with
  | TStruct fs => fs
  | TUnion fs => fs
  | _ => []
  end.

(** *** Column access by name ([Table.column]) *)

Definition Table_column (t : Table) (name : string) : result Column :=
  match filter (fun nc => String.eqb (fst nc) name) t with
  | [(_, c)] => Ok c
  | _ => Raise KeyError
  end.

(** *** Struct decomposition ([ChunkedArray.flatten]) *)

Definition struct_child (k : nat) (row : Scalar) : Scalar :=
  match row with
  | SStruct children => nth k children SNull
  | _ => SNull
  end.

Definition ChunkedArray_flatten (c : Column) : list Column :=
  match ctype c with
  | TStruct fs =>
      map (fun kf => mkColumn (snd (snd kf)) (map (struct_child (fst kf)) (cvalues c)))
          (combine (seq 0 (List.length fs)) fs)
  | _ => [c]
  end.

(** *** List concatenation ([pc.list_flatten]) *)

Definition list_elems (row : Scalar) : list Scalar :=
  match row with
  | SList elems => elems
  | _ => []
  end.

Definition list_value_type (ty : DataType) : DataType :=
  match ty with
  | TList e => e
  | TLargeList e => e
  | TFixedSizeList e _ => e
  | _ => ty
  end.

Definition list_flatten (c : Column) : Column :=
  mkColumn (list_value_type (ctype c)) (flat_map list_elems (cvalues c)).

(** *** Python-level objects obtained by indexing a column

    [column[i]] is always a scalar object of the engine, also at a null
    cell; it is never Python's [None]. *)
Inductive PyObject : Type :=
| PyNone
| PyScalar (ty : DataType) (v : Scalar).

Definition is_not_None (o : PyObject) : bool :=
  match o with PyNone => false | PyScalar _ _ => true end.

Definition ChunkedArray_getitem (c : Column) (i : nat) : PyObject :=
  PyScalar (ctype c) (nth i (cvalues c) SNull).

(** [len(scalar)] of a list-like scalar is the length of its values; a
    null scalar has no values and [len] raises. *)
Definition py_len (o : PyObject) : result nat :=
  match o with
  | PyScalar _ (SMap entries) => Ok (List.length entries)
  | PyScalar _ (SList elems) => Ok (List.length elems)
  | _ => Raise TypeError
  end.

(** [map_scalar[j]] is the pair (key scalar, value scalar) of entry [j]. *)
Definition MapScalar_getitem (o : PyObject) (j : nat) : result (PyObject * PyObject) :=
  match o with
  | PyScalar (TMap kt vt) (SMap entries) =>
      match nth_error entries j with
      | Some (k, v) => Ok (PyScalar kt k, PyScalar vt v)
      | None => Raise IndexError
      end
  | _ => Raise IndexError
  end.

(** *** Array construction from a Python list of scalars ([pa.array])

    The type is not declared by the caller: it is inferred, the type of
    the scalars for a non-empty list and the null type for an empty
    one. *)
Definition py_scalar_value (o : PyObject) : Scalar :=
  match o with PyNone => SNull | PyScalar _ v => v end.

Definition pa_array (objs : list PyObject) : Column :=
  match objs with
  | PyScalar ty _ :: _ => mkColumn ty (map py_scalar_value objs)
  | _ => mkColumn (TPrim null_) (map py_scalar_value objs)
  end.

(** *** Python dictionaries from column name to array

    Insertion ordered, keys unique: writing an existing key replaces
    its value and keeps its position. *)
Definition Dict : Type := list (string * Column).

Fixpoint dict_set (d : Dict) (k : string) (v : Column) : Dict :=
  match d with
  | [] => [(k, v)]
  | (k', v') :: rest =>
      if String.eqb k' k then (k', v) :: rest else (k', v') :: dict_set rest k v
  end.

Fixpoint dict_get (d : Dict) (k : string) : option Column :=
  match d with
  | [] => None
  | (k', v') :: rest => if String.eqb k' k then Some v' else dict_get rest k
  end.

(** [d.update(other)]: the items of [other] are written in order. *)
Definition dict_update (d other : Dict) : Dict :=
  fold_left (fun acc kv => dict_set acc (fst kv) (snd kv)) other d.

(** [dict(zip(names, columns))]. *)
Definition dict_zip (names : list string) (columns : list Column) : Dict :=
  dict_update [] (combine names columns).

Definition dict_keys (d : Dict) : list string := map fst d.

(** *** Table construction from a name-to-array mapping ([pa.table])

    All arrays must have the same length. *)
Definition pa_table (d : Dict) : result Table :=
  match d with
  | [] => Ok []
  | (_, c0) :: rest =>
      if forallb (fun nc => Nat.eqb (len (snd nc)) (len c0)) rest
      then Ok d
      else Raise ArrowInvalid
  end.

(** *** Generic struct flatten of a table ([Table.flatten])

    Every struct column is replaced by its sub-field columns, named
    parent.child; the other columns are left as they are. *)
Definition Table_flatten (t : Table) : Table :=
  flat_map
    (fun nc =>
       match ctype (snd nc) with
       | TStruct fs =>
           combine (map (fun f => (fst nc ++ "." ++ fst f)%string) fs)
                   (ChunkedArray_flatten (snd nc))
       | _ => [nc]
       end) t.

(* ================================================================== *)
(** ** The flattener *)

(** Lines written to the process-wide logger.  The elapsed time and
    the byte size reported after a build come from the clock and the
    engine; they are not represented. *)
Inductive LogRecord : Type :=
| LogError (msg : string)
| LogInfoFlattening (ncolumns : nat)
| LogInfoFlatteningStructs (ncolumns : nat)
| LogInfoPerformance.

(** The object's only attribute, [self._table], together with the log
    output produced so far. *)
Record Flattener : Type := mkFlattener
  { _table : option Table;
    log : list LogRecord }.

Definition set_table (self : Flattener) (table : Table) : Flattener :=
  mkFlattener (Some table) (log self).

Definition _validate_table_set (self : Flattener) : result Table * Flattener :=
  match _table self with
  | None =>
      (Raise (ValueError "Table must be set before flattening."),
       mkFlattener None (log self ++ [LogError "No table set for flattening."]))
  | Some t => (Ok t, self)
  end.

Definition _has_struct_columns (t : Table) : bool :=
  existsb (fun field => is_struct (snd field)) (schema t).

Definition _has_nested_columns (t : Table) : bool :=
  existsb (fun field => is_nested (snd field)) (schema t).

Definition _generate_subfield_names (field : Field) (composite_names : bool)
  : list string :=
  if composite_names
  then map (fun subfield => (fst field ++ "." ++ fst subfield)%string)
           (type_fields (snd field))
  else map (fun subfield => fst subfield) (type_fields (snd field)).

Definition _flatten_struct_field (t : Table) (field : Field) (composite_names : bool)
  : result Dict :=
  let subfield_names := _generate_subfield_names field composite_names in
  column <- Table_column t (fst field) ;;
  let flattened_columns := ChunkedArray_flatten column in
  Ok (dict_zip subfield_names flattened_columns).

Definition _flatten_list_field (t : Table) (field : Field) : result Dict :=
  column <- Table_column t (fst field) ;;
  let flattened_column := list_flatten column in
  Ok (dict_zip [fst field] [flattened_column]).

(** The two accumulators of [_flatten_map_field]. *)
Definition KeysValues : Type := (list PyObject * list PyObject)%type.

Definition map_inner_body (item : PyObject) (acc : KeysValues) (j : nat)
  : result KeysValues :=
  entry <- MapScalar_getitem item j ;;
  Ok (fst acc ++ [fst entry], snd acc ++ [snd entry]).

Definition map_outer_body (map_array : Column) (acc : KeysValues) (i : nat)
  : result KeysValues :=
  let item := ChunkedArray_getitem map_array i in
  if is_not_None item then
    n <- py_len item ;;
    for_each (map_inner_body item) (seq 0 n) acc
  else Ok acc.

Definition _flatten_map_field (t : Table) (field : Field) (composite_names : bool)
  : result Dict :=
  map_array <- Table_column t (fst field) ;;
  acc <- for_each (map_outer_body map_array) (seq 0 (len map_array)) ([], []) ;;
  let name_prefix := if composite_names then (fst field ++ ".")%string else "" in
  let subfield_names := [(name_prefix ++ "keys")%string; (name_prefix ++ "values")%string] in
  let flattened_columns := [pa_array (fst acc); pa_array (snd acc)] in
  Ok (dict_zip subfield_names flattened_columns).

(** One iteration of the loop over the schema in
    [_build_flattened_arrays_dict]. *)
Definition build_field (t : Table) (composite_names keep_nested_columns : bool)
  (arrays_dict : Dict) (field : Field) : result Dict :=
  arrays_dict1 <-
    (if negb (is_nested (snd field)) || keep_nested_columns
     then column <- Table_column t (fst field) ;;
          Ok (dict_set arrays_dict (fst field) column)
     else Ok arrays_dict) ;;
  if is_struct (snd field) then
    sub <- _flatten_struct_field t field composite_names ;;
    Ok (dict_update arrays_dict1 sub)
  else if is_list (snd field) then
    sub <- _flatten_list_field t field ;;
    Ok (dict_update arrays_dict1 sub)
  else if is_map (snd field) then
    sub <- _flatten_map_field t field composite_names ;;
    Ok (dict_update arrays_dict1 sub)
  else Ok arrays_dict1.

Definition _build_flattened_arrays_dict (t : Table)
  (composite_names keep_nested_columns : bool) : result Dict :=
  for_each (build_field t composite_names keep_nested_columns) (schema t) [].

Definition _flatten_nested_columns (t : Table)
  (composite_names keep_nested_columns : bool) : result Table :=
  arrays_dict <- _build_flattened_arrays_dict t composite_names keep_nested_columns ;;
  pa_table arrays_dict.

(** *** The public operations

    The [while] loops are run for at most [fuel] passes.  [Running]
    is the outcome of a loop whose condition still holds when the
    passes are used up; a call terminates when some number of passes
    gives [Returned] or [Raised]. *)
Inductive outcome : Type :=
| Returned (t : Table)
| Raised (e : exn)
| Running.

Fixpoint flatten_all_loop (fuel : nat)
  (recursive composite_names keep_nested_columns : bool)
  (t : Table) (lg : list LogRecord) : outcome * Flattener :=
  if _has_nested_columns t then
    match fuel with
    | 0 => (Running, mkFlattener (Some t) lg)
    | S fuel' =>
        let lg1 := lg ++ [LogInfoFlattening (List.length t)] in
        match _flatten_nested_columns t composite_names keep_nested_columns with
        | Raise e => (Raised e, mkFlattener (Some t) lg1)
        | Ok t' =>
            let lg2 := lg1 ++ [LogInfoPerformance] in
            if negb recursive
            then (Returned t', mkFlattener (Some t') lg2)
            else flatten_all_loop fuel' recursive composite_names
                                  keep_nested_columns t' lg2
        end
    end
  else (Returned t, mkFlattener (Some t) lg).

Definition flatten_all_columns (fuel : nat) (self : Flattener)
  (recursive composite_names keep_nested_columns : bool) : outcome * Flattener :=
  match _validate_table_set self with
  | (Raise e, self') => (Raised e, self')
  | (Ok t, self') =>
      flatten_all_loop fuel recursive composite_names keep_nested_columns
                       t (log self')
  end.

Fixpoint flatten_struct_loop (fuel : nat) (recursive : bool)
  (t : Table) (lg : list LogRecord) : outcome * Flattener :=
  if _has_struct_columns t then
    match fuel with
    | 0 => (Running, mkFlattener (Some t) lg)
    | S fuel' =>
        let lg1 := lg ++ [LogInfoFlatteningStructs (List.length t)] in
        let t' := Table_flatten t in
        if negb recursive
        then (Returned t', mkFlattener (Some t') lg1)
        else flatten_struct_loop fuel' recursive t' lg1
    end
  else (Returned t, mkFlattener (Some t) lg).

Definition flatten_struct_columns (fuel : nat) (self : Flattener) (recursive : bool)
  : outcome * Flattener :=
  match _validate_table_set self with
  | (Raise e, self') => (Raised e, self')
  | (Ok t, self') => flatten_struct_loop fuel recursive t (log self')
  end.

(* ================================================================== *)
(** ** The safe converter *)

(** Equality of data types, as used when a type is looked up as a
    dictionary key. *)
Definition PrimType_eqb (p q : PrimType) : bool :=
  match p, q with
  | null_, null_ | int8, int8 | int16, int16 | int32, int32 | int64, int64
  | uint8, uint8 | uint16, uint16 | uint32, uint32 | uint64, uint64
  | bool_, bool_ | float16, float16 | float32, float32 | float64, float64
  | string_, string_ | large_string, large_string | binary, binary
  | date32, date32 | timestamp, timestamp => true
  | _, _ => false
  end.

Fixpoint DataType_eqb (a b : DataType) {struct a} : bool :=
  let fix fields_eqb (fs gs : list (string * DataType)) {struct fs} : bool :=
    match fs, gs with
    | [], [] => true
    | f :: fs', g :: gs' =>
        String.eqb (fst f) (fst g) && DataType_eqb (snd f) (snd g) && fields_eqb fs' gs'
    | _, _ => false
    end in
  match a, b with
  | TPrim p, TPrim q => PrimType_eqb p q
  | TStruct fs, TStruct gs => fields_eqb fs gs
  | TList x, TList y => DataType_eqb x y
  | TLargeList x, TLargeList y => DataType_eqb x y
  | TFixedSizeList x n, TFixedSizeList y m => DataType_eqb x y && Nat.eqb n m
  | TMap k v, TMap k' v' => DataType_eqb k k' && DataType_eqb v v'
  | TUnion fs, TUnion gs => fields_eqb fs gs
  | _, _ => false
  end.

(** The nullable extension dtypes of the dataframe library, and the
    dtypes of its default conversion. *)
Inductive PandasDtype : Type :=
| Int8Dtype | Int16Dtype | Int32Dtype | Int64Dtype
| UInt8Dtype | UInt16Dtype | UInt32Dtype | UInt64Dtype
| BooleanDtype | Float32Dtype | Float64Dtype | StringDtype
| numpy_dtype (p : PrimType)    (* plain array of the same primitive type *)
| numpy_float64                 (* integers with nulls are upcast *)
| numpy_object.

(** Keys and values of [dtype_mapping].  A key is a data type
    instance or, for the last entry, the function object [pa.map_]
    (the factory of map types, not a type). *)
Inductive PyKey : Type :=
| KeyDataType (ty : DataType)
| KeyFunction (name : string).

Inductive MapperEntry : Type :=
| EntryDtype (d : PandasDtype)
| EntryFunction (name : string).

Definition PyKey_eqb (a b : PyKey) : bool :=
  match a, b with
  | KeyDataType x, KeyDataType y => DataType_eqb x y
  | KeyFunction f, KeyFunction g => String.eqb f g
  | _, _ => false
  end.

Definition dtype_mapping : list (PyKey * MapperEntry) :=
  [ (KeyDataType (TPrim int8), EntryDtype Int8Dtype);
    (KeyDataType (TPrim int16), EntryDtype Int16Dtype);
    (KeyDataType (TPrim int32), EntryDtype Int32Dtype);
    (KeyDataType (TPrim int64), EntryDtype Int64Dtype);
    (KeyDataType (TPrim uint8), EntryDtype UInt8Dtype);
    (KeyDataType (TPrim uint16), EntryDtype UInt16Dtype);
    (KeyDataType (TPrim uint32), EntryDtype UInt32Dtype);
    (KeyDataType (TPrim uint64), EntryDtype UInt64Dtype);
    (KeyDataType (TPrim bool_), EntryDtype BooleanDtype);
    (KeyDataType (TPrim float32), EntryDtype Float32Dtype);
    (KeyDataType (TPrim float64), EntryDtype Float64Dtype);
    (KeyDataType (TPrim string_), EntryDtype StringDtype);
    (KeyFunction "map_", EntryFunction "map_to_dict") ].

(** [dtype_mapping.get]. *)
Fixpoint mapping_get (m : list (PyKey * MapperEntry)) (key : PyKey)
  : option MapperEntry :=
  match m with
  | [] => None
  | (k, v) :: rest => if PyKey_eqb k key then Some v else mapping_get rest key
  end.

(** Cells of a dataframe column. *)
Inductive PdCell : Type :=
| PdNA                                   (* the missing-value marker *)
| PdNaN                                  (* a float not-a-number *)
| PdNone                                 (* Python's None in an object column *)
| PdValue (v : Scalar)                   (* a present value *)
| PdTuples (entries : list (Scalar * Scalar))   (* a list of (key, value) tuples *)
| PdDict (items : list (Scalar * Scalar)).      (* a dict, keys unique *)

Record Series : Type := mkSeries { dtype : PandasDtype; cells : list PdCell }.

Definition DataFrame : Type := list (string * Series).

(** Conversion of a column to a nullable extension dtype. *)
Definition nullable_cell (v : Scalar) : PdCell :=
  match v with SNull => PdNA | _ => PdValue v end.

(** The engine's default conversion of a column. *)
Definition is_integer (p : PrimType) : bool :=
  match p with
  | int8 | int16 | int32 | int64 | uint8 | uint16 | uint32 | uint64 => true
  | _ => false
  end.

Definition is_floating (p : PrimType) : bool :=
  match p with float16 | float32 | float64 => true | _ => false end.

Definition is_null_scalar (v : Scalar) : bool :=
  match v with SNull => true | _ => false end.

Definition nan_cell (v : Scalar) : PdCell :=
  match v with SNull => PdNaN | _ => PdValue v end.

Definition object_cell (v : Scalar) : PdCell :=
  match v with
  | SNull => PdNone
  | SMap entries => PdTuples entries
  | _ => PdValue v
  end.

Definition default_conversion (c : Column) : Series :=
  match ctype c with
  | TPrim p =>
      if is_integer p then
        if existsb is_null_scalar (cvalues c)
        then mkSeries numpy_float64 (map nan_cell (cvalues c))
        else mkSeries (numpy_dtype p) (map nan_cell (cvalues c))
      else if is_floating p then mkSeries (numpy_dtype p) (map nan_cell (cvalues c))
      else if PrimType_eqb p bool_ && negb (existsb is_null_scalar (cvalues c))
      then mkSeries (numpy_dtype p) (map object_cell (cvalues c))
      else mkSeries numpy_object (map object_cell (cvalues c))
  | _ => mkSeries numpy_object (map object_cell (cvalues c))
  end.

(** [Table.to_pandas(types_mapper=...)]: the mapper is asked once per
    column with the column's type; an answer other than [None] is
    used as that column's extension dtype. *)
Definition convert_column (types_mapper : PyKey -> option MapperEntry) (c : Column)
  : result Series :=
  match types_mapper (KeyDataType (ctype c)) with
  | Some (EntryDtype d) => Ok (mkSeries d (map nullable_cell (cvalues c)))
  | Some (EntryFunction _) => Raise AttributeError
  | None => Ok (default_conversion c)
  end.

Definition Table_to_pandas (t : Table) (types_mapper : PyKey -> option MapperEntry)
  : result DataFrame :=
  for_each
    (fun df nc => s <- convert_column types_mapper (snd nc) ;; Ok (df ++ [(fst nc, s)]))
    t [].

Definition to_pandas_safe (table : Table) : result DataFrame :=
  Table_to_pandas table (mapping_get dtype_mapping).

(** The keys and the values stored in a row of a map column, in
    stored order. *)
Definition map_keys (m : Scalar) : list Scalar :=
  match m with SMap entries => map fst entries | _ => [] end.

Definition map_values (m : Scalar) : list Scalar :=
  match m with SMap entries => map snd entries | _ => [] end.

(* ================================================================== *)
(** ** The repository's test tables *)

Module TestData.

Definition person_type : DataType :=
  TStruct [("name", TPrim string_); ("age", TPrim int64)].

Definition person_rows : list Scalar :=
  [SStruct [SStr "Alice"; SInt 30]; SStruct [SStr "Bob"; SInt 25]].

Definition id_column : Column := mkColumn (TPrim int64) [SInt 1; SInt 2].
Definition person_column : Column := mkColumn person_type person_rows.
Definition complicated_person_column : Column :=
  mkColumn (TStruct [("student", person_type)])
           (map (fun p => SStruct [p]) person_rows).
Definition simple_list_column : Column :=
  mkColumn (TList (TPrim int64)) [SList [SInt 1]; SList [SInt 5]].

Definition composite_keys_table : Table :=
  [("id", id_column); ("person", person_column);
   ("complicated_person", complicated_person_column);
   ("simple_list", simple_list_column)].

Definition list_with_none_table : Table :=
  [("list_with_none",
    mkColumn (TList (TPrim int64)) [SList [SInt 1]; SList [SNull]; SList [SInt 5]])].

Definition map_table : Table :=
  [("map_array",
    mkColumn (TMap (TPrim string_) (TPrim int64))
      [SMap [(SStr "x", SInt 1); (SStr "y", SInt 0)];
       SMap [(SStr "a", SInt 2); (SStr "b", SInt 45)]])].

End TestData.

(* ================================================================== *)
(** ** Notions used to state the properties *)

(** A type that is nested in the engine's sense but is neither struct
    nor list nor map. *)
Definition nested_of_other_kind (ty : DataType) : bool :=
  is_nested ty && negb (is_struct ty) && negb (is_list ty) && negb (is_map ty).

(** Number of elements a row of a list column holds; a null row holds
    none. *)
Definition row_length (row : Scalar) : nat :=
  match row with
  | SList elems => List.length elems
  | _ => 0
  end.

(** Number of entries a row of a map column holds. *)
Definition entry_count (row : Scalar) : nat :=
  match row with
  | SMap entries => List.length entries
  | _ => 0
  end.

(** Position, in the concatenation, of the first element of row [i]. *)
Definition row_offset (rows : list Scalar) (i : nat) : nat :=
  list_sum (map row_length (firstn i rows)).

(** Tables used as concrete inputs below. *)
Module Inputs.

Definition large_list_table : Table :=
  [("id", TestData.id_column);
   ("big", mkColumn (TLargeList (TPrim int64)) [SList [SInt 1]; SList [SInt 5]])].

Definition person_table : Table := [("person", TestData.person_column)].

Definition simple_list_table : Table := [("simple_list", TestData.simple_list_column)].

Definition null_map_column : Column :=
  mkColumn (TMap (TPrim string_) (TPrim int64))
           [SMap [(SStr "x", SInt 1)]; SNull].

Definition null_map_table : Table := [("m", null_map_column)].

Definition duplicate_key_column : Column :=
  mkColumn (TMap (TPrim string_) (TPrim int64))
           [SMap [(SStr "a", SInt 1); (SStr "a", SInt 2)]].

Definition duplicate_key_table : Table := [("m", duplicate_key_column)].

Definition twin_type : DataType :=
  TStruct [("a", TPrim int64); ("a", TPrim string_)].

Definition twin_table : Table :=
  [("s", mkColumn twin_type [SStruct [SInt 1; SStr "one"]; SStruct [SInt 2; SStr "two"]])].

Definition nullable_table : Table :=
  [("n", mkColumn (TPrim int64) [SInt 1; SNull; SInt 5]);
   ("s", mkColumn (TPrim string_) [SStr "a"; SStr "b"; SNull])].

End Inputs.

(** The conversion table as the specification words it: the twelve
    supported primitive types with their nullable dtypes, no entry for
    any other type. *)
Definition spec_nullable_dtype (p : PrimType) : option PandasDtype :=
  match p with
  | int8 => Some Int8Dtype
  | int16 => Some Int16Dtype
  | int32 => Some Int32Dtype
  | int64 => Some Int64Dtype
  | uint8 => Some UInt8Dtype
  | uint16 => Some UInt16Dtype
  | uint32 => Some UInt32Dtype
  | uint64 => Some UInt64Dtype
  | bool_ => Some BooleanDtype
  | float32 => Some Float32Dtype
  | float64 => Some Float64Dtype
  | string_ => Some StringDtype
  | _ => None
  end.

Definition spec_supported (ty : DataType) : option PandasDtype :=
  match ty with
  | TPrim p => spec_nullable_dtype p
  | _ => None
  end.

(** The series the specification expects for a column: the nullable
    dtype with missing-value markers at the null cells for a supported
    type, the engine's default conversion for any other. *)
Definition spec_series (c : Column) : Series :=
  match spec_supported (ctype c) with
  | Some d => mkSeries d (map nullable_cell (cvalues c))
  | None => default_conversion c
  end.

(** Name given to the column of a sub-field under the naming policy. *)
Definition subfield_name (parent : string) (composite_names : bool) (sub : string)
  : string :=
  if composite_names then (parent ++ "." ++ sub)%string else sub.

(** The values of sub-field number [k] of a struct column, row for
    row: the [k]-th child of the row, null where the row is null. *)
Definition subfield_column (column : Column) (k : nat) (sub : Field) : Column :=
  mkColumn (snd sub) (map (struct_child k) (cvalues column)).

(** The (name, column) pairs of the sub-fields [fs], numbered from
    [start], in order. *)
Fixpoint struct_items (parent : string) (composite_names : bool) (column : Column)
  (start : nat) (fs : list Field) : list (string * Column) :=
  match fs with
  | [] => []
  | sub :: rest =>
      (subfield_name parent composite_names (fst sub), subfield_column column start sub)
        :: struct_items parent composite_names column (S start) rest
  end.

(** The decomposition law as the specification words it: one output
    column per sub-field, named by the policy, holding that
    sub-field's values. *)
Definition one_column_per_subfield (t : Table) (field : Field) (composite_names : bool)
  : Prop :=
  exists column d,
    Table_column t (fst field) = Ok column
    /\ _flatten_struct_field t field composite_names = Ok d
    /\ List.length d = List.length (type_fields (snd field))
    /\ forall k sub,
         nth_error (type_fields (snd field)) k = Some sub ->
         dict_get d (subfield_name (fst field) composite_names (fst sub))
         = Some (subfield_column column k sub).

(** Nesting depth of a type: 0 for a primitive type, one more than the
    deepest component for a nested one. *)
Fixpoint depth (ty : DataType) : nat :=
  let fix fields_depth (fs : list (string * DataType)) : nat :=
    match fs with
    | [] => 0
    | f :: rest => Nat.max (depth (snd f)) (fields_depth rest)
    end in
  match ty with
  | TPrim _ => 0
  | TStruct fs => S (fields_depth fs)
  | TList e => S (depth e)
  | TLargeList e => S (depth e)
  | TFixedSizeList e _ => S (depth e)
  | TMap k v => S (Nat.max (depth k) (depth v))
  | TUnion fs => S (fields_depth fs)
  end.

(** Nesting depth of a table's schema: that of its deepest column. *)
Definition table_depth (t : Table) : nat :=
  list_max (map (fun nc => depth (ctype (snd nc))) t).

(** Every array of the mapping has a type of depth at most [n]. *)
Definition dict_depth_le (n : nat) (d : Dict) : Prop :=
  Forall (fun nc => depth (ctype (snd nc)) <= n) d.

Definition pyobject_depth_le (n : nat) (o : PyObject) : Prop :=
  match o with
  | PyNone => True
  | PyScalar ty _ => depth ty <= n
  end.

Definition keys_values_depth_le (n : nat) (acc : KeysValues) : Prop :=
  Forall (pyobject_depth_le n) (fst acc) /\ Forall (pyobject_depth_le n) (snd acc).

(** The scalar objects appended for one row of a map column. *)
Definition row_key_objects (kt : DataType) (row : Scalar) : list PyObject :=
  map (PyScalar kt) (map_keys row).

Definition row_value_objects (vt : DataType) (row : Scalar) : list PyObject :=
  map (PyScalar vt) (map_values row).

(** The names a field's step of the pass may write under. *)
Definition output_names (composite_names keep_nested_columns : bool) (field : Field)
  : list string :=
  (if negb (is_nested (snd field)) || keep_nested_columns then [fst field] else [])
  ++ (if is_struct (snd field) then _generate_subfield_names field composite_names
      else if is_list (snd field) then [fst field]
      else if is_map (snd field) then
        let name_prefix := if composite_names then (fst field ++ ".")%string else "" in
        [(name_prefix ++ "keys")%string; (name_prefix ++ "values")%string]
      else []).

Module Collisions.

(** Two struct columns whose sub-fields share the name [x]. *)
Definition x_type : DataType := TStruct [("x", TPrim int64)].

Definition two_structs_table : Table :=
  [("a", mkColumn x_type [SStruct [SInt 1]; SStruct [SInt 2]]);
   ("b", mkColumn x_type [SStruct [SInt 3]; SStruct [SInt 4]])].

(** A struct column followed by a primitive column. *)
Definition struct_then_id_table : Table :=
  [("a", mkColumn x_type [SStruct [SInt 1]; SStruct [SInt 2]]);
   ("id", TestData.id_column)].

End Collisions.

(** Depth of struct nesting reachable by the generic struct flatten:
    structs inside structs count, structs inside lists or maps do
    not. *)
Fixpoint struct_depth (ty : DataType) : nat :=
  let fix fields_struct_depth (fs : list (string * DataType)) : nat :=
    match fs with
    | [] => 0
    | f :: rest => Nat.max (struct_depth (snd f)) (fields_struct_depth rest)
    end in
  match ty with
  | TStruct fs => S (fields_struct_depth fs)
  | _ => 0
  end.

Definition table_struct_depth (t : Table) : nat :=
  list_max (map (fun nc => struct_depth (ctype (snd nc))) t).

(** All columns of the table have [rows] cells. *)
Definition row_count_is (rows : nat) (t : Table) : Prop :=
  Forall (fun nc => len (snd nc) = rows) t.

(** The step of a field reads the field's column from the table. *)
Definition accesses_column (keep_nested_columns : bool) (ty : DataType) : bool :=
  negb (is_nested ty) || keep_nested_columns || is_struct ty || is_list ty || is_map ty.

(** Number of columns of the table that carry the name. *)
Definition name_count (t : Table) (name : string) : nat :=
  List.length (filter (fun nc => String.eqb (fst nc) name) t).


Module ListInputs.

(** A list column holding three elements in two rows, beside a column
    of two rows. *)
Definition uneven_list_column : Column :=
  mkColumn (TList (TPrim int64)) [SList [SInt 1; SInt 2; SInt 3]; SNull].

Definition uneven_table : Table :=
  [("id", TestData.id_column); ("l", uneven_list_column)].

(** A list column followed by a struct column with a sub-field of the
    list column's name. *)
Definition shadowed_table : Table :=
  [("l", TestData.simple_list_column);
   ("s", mkColumn (TStruct [("l", TPrim int64)]) [SStruct [SInt 7]; SStruct [SInt 8]])].

End ListInputs.

(* ================================================================== *)
(** ** Exceptions of the engine never are the invalid-state error *)

Definition invalid_state : exn := ValueError "Table must be set before flattening.".

Definition from_engine (e : exn) : Prop :=
  match e with ValueError _ => False | _ => True end.

Lemma bind_Ok_inv (A B : Type) (r : result A) (k : A -> result B) (b : B) :
  bind r k = Ok b -> exists a, r = Ok a /\ k a = Ok b.
Proof.
  destruct r as [a|e]; simpl; intros H; [exists a; auto | discriminate].
Qed.

Lemma bind_Raise_inv (A B : Type) (r : result A) (k : A -> result B) (e : exn) :
  bind r k = Raise e -> r = Raise e \/ exists a, r = Ok a /\ k a = Raise e.
Proof.
  destruct r as [a|e']; simpl; intros H; [right; exists a; auto | left; congruence].
Qed.

Lemma for_each_raise (A S : Type) (P : exn -> Prop) (body : S -> A -> result S) :
  (forall s x e, body s x = Raise e -> P e) ->
  forall xs s e, for_each body xs s = Raise e -> P e.
Proof.
  intros Hbody xs; induction xs as [|x rest IH]; simpl; intros s e H.
  - discriminate.
  - apply bind_Raise_inv in H. destruct H as [H | [s' [_ H]]].
    + eapply Hbody; eassumption.
    + eapply IH; eassumption.
Qed.

Lemma for_each_app (A S : Type) (body : S -> A -> result S) (xs ys : list A) (s : S) :
  for_each body (xs ++ ys) s = (s' <- for_each body xs s ;; for_each body ys s').
Proof.
  revert s; induction xs as [|x rest IH]; simpl; intros s; [reflexivity|].
  destruct (body s x) as [s'|e]; simpl; [apply IH | reflexivity].
Qed.

Lemma Table_column_raise (t : Table) (name : string) (e : exn) :
  Table_column t name = Raise e -> from_engine e.
Proof.
  unfold Table_column.
  destruct (filter _ t) as [|[n c] [|p rest]]; intros H; inversion H; exact I.
Qed.

Lemma py_len_raise (o : PyObject) (e : exn) : py_len o = Raise e -> from_engine e.
Proof.
  destruct o as [|ty v]; simpl; [intros H; inversion H; exact I|].
  destruct v; intros H; inversion H; exact I.
Qed.

Lemma MapScalar_getitem_raise (o : PyObject) (j : nat) (e : exn) :
  MapScalar_getitem o j = Raise e -> from_engine e.
Proof.
  destruct o as [|ty v]; simpl; [intros H; inversion H; exact I|].
  destruct ty; try (intros H; inversion H; exact I).
  destruct v; try (intros H; inversion H; exact I).
  destruct (nth_error entries j) as [[k v]|]; intros H; inversion H; exact I.
Qed.

Lemma pa_table_raise (d : Dict) (e : exn) : pa_table d = Raise e -> from_engine e.
Proof.
  destruct d as [|[n c] rest]; simpl; [discriminate|].
  destruct (forallb _ rest); intros H; inversion H; exact I.
Qed.

(** Splits a hypothesis saying that a sequence of binds raised. *)
Ltac raise_cases H :=
  repeat match type of H with
         | bind _ _ = Raise _ =>
             apply bind_Raise_inv in H; destruct H as [H | [? [_ H]]]
         | Ok _ = Raise _ => discriminate H
         end.

Lemma _flatten_map_field_raise (t : Table) (field : Field) (cn : bool) (e : exn) :
  _flatten_map_field t field cn = Raise e -> from_engine e.
Proof.
  unfold _flatten_map_field; intros H. raise_cases H.
  - eapply Table_column_raise; eassumption.
  - revert H. apply for_each_raise. clear. intros s i e.
    unfold map_outer_body. simpl is_not_None. cbv iota. intros H. raise_cases H.
    + eapply py_len_raise; eassumption.
    + revert H. apply for_each_raise. intros s' j e'.
      unfold map_inner_body. intros H. raise_cases H.
      eapply MapScalar_getitem_raise; eassumption.
Qed.

Lemma build_field_raise (t : Table) (cn keep : bool) (d : Dict) (field : Field) (e : exn) :
  build_field t cn keep d field = Raise e -> from_engine e.
Proof.
  unfold build_field, _flatten_struct_field, _flatten_list_field; intros H.
  apply bind_Raise_inv in H. destruct H as [H | [d1 [_ H]]].
  - destruct (negb (is_nested (snd field)) || keep); [|discriminate].
    raise_cases H. eapply Table_column_raise; eassumption.
  - destruct (is_struct (snd field)).
    { raise_cases H. eapply Table_column_raise; eassumption. }
    destruct (is_list (snd field)).
    { raise_cases H. eapply Table_column_raise; eassumption. }
    destruct (is_map (snd field)); [|discriminate].
    raise_cases H. eapply _flatten_map_field_raise; eassumption.
Qed.

Lemma _flatten_nested_columns_raise (t : Table) (cn keep : bool) (e : exn) :
  _flatten_nested_columns t cn keep = Raise e -> from_engine e.
Proof.
  unfold _flatten_nested_columns, _build_flattened_arrays_dict; intros H.
  apply bind_Raise_inv in H. destruct H as [H | [d [_ H]]].
  - revert H. apply for_each_raise. intros s x e'. apply build_field_raise.
  - eapply pa_table_raise; eassumption.
Qed.

Lemma flatten_all_loop_not_invalid_state (fuel : nat) (r cn keep : bool) :
  forall t lg, fst (flatten_all_loop fuel r cn keep t lg) <> Raised invalid_state.
Proof.
  induction fuel as [|fuel IH]; intros t lg; simpl;
    destruct (_has_nested_columns t); simpl; try discriminate.
  destruct (_flatten_nested_columns t cn keep) as [t'|e] eqn:E; simpl.
  - destruct r; simpl; [apply IH | discriminate].
  - intros H. inversion H; subst. apply _flatten_nested_columns_raise in E. exact E.
Qed.

Lemma flatten_struct_loop_not_raised (fuel : nat) (r : bool) :
  forall t lg e, fst (flatten_struct_loop fuel r t lg) <> Raised e.
Proof.
  induction fuel as [|fuel IH]; intros t lg e; simpl;
    destruct (_has_struct_columns t); simpl; try discriminate.
  destruct r; simpl; [apply IH | discriminate].
Qed.

(* ================================================================== *)
(** ** The guard: the only error of the program's own *)

(** C9.  Both public operations fail with the invalid-state error
    exactly when no table is set, whatever the flags and the number of
    passes allowed.  On that path one error line is logged, the held
    reference stays unset and the outcome is the error, not a table. *)
Theorem invalid_state_iff_no_table :
  forall (fuel : nat) (self : Flattener) (recursive composite_names keep : bool),
    (fst (flatten_all_columns fuel self recursive composite_names keep)
       = Raised invalid_state <-> _table self = None)
    /\ (fst (flatten_struct_columns fuel self recursive)
       = Raised invalid_state <-> _table self = None)
    /\ (_table self = None ->
        let failed :=
          (Raised invalid_state,
           mkFlattener None (log self ++ [LogError "No table set for flattening."])) in
        flatten_all_columns fuel self recursive composite_names keep = failed
        /\ flatten_struct_columns fuel self recursive = failed).
Proof.
  intros fuel self recursive composite_names keep.
  unfold flatten_all_columns, flatten_struct_columns, _validate_table_set.
  destruct (_table self) as [t|] eqn:Et; simpl.
  - split; [|split].
    + split; [|discriminate]. intros H. exfalso.
      eapply flatten_all_loop_not_invalid_state; eassumption.
    + split; [|discriminate]. intros H. exfalso.
      eapply flatten_struct_loop_not_raised; eassumption.
    + discriminate.
  - repeat split; reflexivity.
Qed.

(* ================================================================== *)
(** ** A full flatten leaves nothing to flatten *)

Lemma nested_kinds (ty : DataType) :
  is_nested ty = false -> is_struct ty = false /\ is_list ty = false /\ is_map ty = false.
Proof. destruct ty; simpl; intros H; try discriminate; auto. Qed.

Lemma _has_nested_columns_false (t : Table) :
  _has_nested_columns t = false ->
  forall field, In field (schema t) -> is_nested (snd field) = false.
Proof.
  unfold _has_nested_columns. intros H field Hin.
  destruct (is_nested (snd field)) eqn:E; [|reflexivity].
  assert (existsb (fun f => is_nested (snd f)) (schema t) = true) as C
    by (apply existsb_exists; exists field; auto).
  congruence.
Qed.

Lemma flatten_all_loop_flat (fuel : nat) (r cn keep : bool) (t : Table) (lg : list LogRecord) :
  _has_nested_columns t = false ->
  flatten_all_loop fuel r cn keep t lg = (Returned t, mkFlattener (Some t) lg).
Proof. intros H. destruct fuel; simpl; rewrite H; reflexivity. Qed.

Lemma flatten_all_loop_recursive_returned (fuel : nat) (cn keep : bool) :
  forall t lg t' self',
    flatten_all_loop fuel true cn keep t lg = (Returned t', self') ->
    _has_nested_columns t' = false /\ self' = mkFlattener (Some t') (log self').
Proof.
  induction fuel as [|fuel IH]; intros t lg t' self'; simpl;
    destruct (_has_nested_columns t) eqn:En.
  - discriminate.
  - intros H; inversion H; subst; simpl; auto.
  - destruct (_flatten_nested_columns t cn keep) as [t1|e]; simpl.
    + apply IH.
    + discriminate.
  - intros H; inversion H; subst; simpl; auto.
Qed.

(** C8.  When [flatten_all_columns] with [recursive = true] returns,
    no field of the returned schema is struct-, list- or map-typed,
    the returned table is the held one, and a second full run (with
    any flags and any number of passes allowed) returns that same
    table and leaves the state, log included, as it was. *)
Theorem full_flatten_idempotent :
  forall (fuel : nat) (self self' : Flattener) (composite_names keep : bool) (t' : Table),
    flatten_all_columns fuel self true composite_names keep = (Returned t', self') ->
    (forall field, In field (schema t') ->
       is_struct (snd field) = false /\ is_list (snd field) = false
       /\ is_map (snd field) = false)
    /\ _table self' = Some t'
    /\ (forall fuel2 composite_names2 keep2,
          flatten_all_columns fuel2 self' true composite_names2 keep2
          = (Returned t', self')).
Proof.
  intros fuel self self' cn keep t'.
  unfold flatten_all_columns at 1, _validate_table_set.
  destruct (_table self) as [t|]; [|discriminate].
  intros H. apply flatten_all_loop_recursive_returned in H. destruct H as [Hflat Hself].
  destruct self' as [held lg']. simpl in Hself. injection Hself as ->.
  split; [|split].
  - intros field Hin. apply nested_kinds. eapply _has_nested_columns_false; eassumption.
  - reflexivity.
  - intros fuel2 cn2 keep2. unfold flatten_all_columns, _validate_table_set. simpl.
    apply flatten_all_loop_flat. assumption.
Qed.

Lemma full_flatten_idempotent_witness :
  let first_run :=
    flatten_all_columns 3 (mkFlattener (Some TestData.composite_keys_table) [])
                        true true false in
  flatten_all_columns 0 (snd first_run) true false true = first_run.
Proof.
  cbv zeta.
  destruct (flatten_all_columns 3 (mkFlattener (Some TestData.composite_keys_table) [])
                                true true false) as [o self'] eqn:E.
  assert (exists t', o = Returned t') as [t' Ho]
      by (vm_compute in E; injection E as <- _; eauto).
  subst o. simpl.
  apply (full_flatten_idempotent 3 _ _ true false _ E).
Defined.

(* ================================================================== *)
(** ** Nested fields that are neither struct, list nor map *)

Lemma build_field_other_kind (t : Table) (cn : bool) (d : Dict) (field : Field) :
  nested_of_other_kind (snd field) = true ->
  build_field t cn false d field = Ok d.
Proof.
  unfold nested_of_other_kind, build_field. intros H.
  apply andb_prop in H; destruct H as [H Hm].
  apply andb_prop in H; destruct H as [H Hl].
  apply andb_prop in H; destruct H as [Hn Hs].
  apply negb_true_iff in Hm, Hl, Hs.
  rewrite Hn, Hs, Hl, Hm. reflexivity.
Qed.

(** C10.  With [keep_nested_columns = false], a field whose type is
    nested but is neither struct, list nor map writes nothing into the
    mapping being built: its step returns the mapping as it received
    it, and the pass builds the same mapping as an iteration over the
    schema without that field. *)
Theorem other_nested_field_dropped :
  forall (t : Table) (composite_names : bool) (field : Field),
    nested_of_other_kind (snd field) = true ->
    (forall d, build_field t composite_names false d field = Ok d)
    /\ (forall pre post,
          schema t = pre ++ field :: post ->
          _build_flattened_arrays_dict t composite_names false
          = for_each (build_field t composite_names false) (pre ++ post) []).
Proof.
  intros t cn field H. split.
  - intros d. apply build_field_other_kind. exact H.
  - intros pre post Hs. unfold _build_flattened_arrays_dict. rewrite Hs.
    rewrite !for_each_app.
    destruct (for_each (build_field t cn false) pre []) as [d|e]; simpl; [|reflexivity].
    rewrite build_field_other_kind by exact H. reflexivity.
Qed.

Lemma other_nested_field_dropped_witness :
  _build_flattened_arrays_dict Inputs.large_list_table false false
  = Ok [("id", TestData.id_column)].
Proof.
  destruct (other_nested_field_dropped Inputs.large_list_table false
              ("big", TLargeList (TPrim int64)) eq_refl) as [_ H].
  rewrite (H [("id", TPrim int64)] [] eq_refl). reflexivity.
Defined.

(* ================================================================== *)
(** ** Facts about the name-to-array mapping *)

Lemma dict_get_set_same (d : Dict) (k : string) (v : Column) :
  dict_get (dict_set d k v) k = Some v.
Proof.
  induction d as [|[k' v'] rest IH]; simpl.
  - rewrite String.eqb_refl. reflexivity.
  - destruct (String.eqb k' k) eqn:E; simpl; rewrite E; [reflexivity | exact IH].
Qed.

Lemma dict_get_set_other (d : Dict) (k k' : string) (v : Column) :
  k' <> k -> dict_get (dict_set d k v) k' = dict_get d k'.
Proof.
  intros Hne. induction d as [|[k0 v0] rest IH]; simpl.
  - destruct (String.eqb k k') eqn:E; [|reflexivity].
    apply String.eqb_eq in E. congruence.
  - destruct (String.eqb k0 k) eqn:E; simpl.
    + destruct (String.eqb k0 k') eqn:E'; [|reflexivity].
      apply String.eqb_eq in E, E'. congruence.
    + destruct (String.eqb k0 k'); [reflexivity | exact IH].
Qed.

Lemma dict_keys_set (d : Dict) (k : string) (v : Column) :
  dict_keys (dict_set d k v)
  = if existsb (String.eqb k) (dict_keys d) then dict_keys d else dict_keys d ++ [k].
Proof.
  unfold dict_keys. induction d as [|[k' v'] rest IH]; simpl; [reflexivity|].
  rewrite (String.eqb_sym k k').
  destruct (String.eqb k' k) eqn:E; simpl; [reflexivity|].
  rewrite IH. destruct (existsb (String.eqb k) (map fst rest)); reflexivity.
Qed.

(* ================================================================== *)
(** ** List columns *)

Lemma row_length_list_elems (row : Scalar) :
  List.length (list_elems row) = row_length row.
Proof. destruct row; reflexivity. Qed.

Lemma list_flatten_length (rows : list Scalar) :
  List.length (flat_map list_elems rows) = list_sum (map row_length rows).
Proof.
  induction rows as [|row rest IH]; simpl; [reflexivity|].
  rewrite length_app, IH, row_length_list_elems. reflexivity.
Qed.

Lemma list_flatten_position (rows : list Scalar) :
  forall i elems j x,
    nth_error rows i = Some (SList elems) ->
    nth_error elems j = Some x ->
    nth_error (flat_map list_elems rows) (row_offset rows i + j) = Some x.
Proof.
  unfold row_offset.
  induction rows as [|row rest IH]; intros i elems j x Hi Hj.
  - destruct i; discriminate.
  - destruct i as [|i]; simpl in *.
    + injection Hi as ->. simpl. rewrite nth_error_app1; [exact Hj|].
      apply nth_error_Some. congruence.
    + rewrite <- row_length_list_elems, <- Nat.add_assoc.
      rewrite nth_error_app2 by lia.
      replace (List.length (list_elems row) + _ - List.length (list_elems row))
        with (list_sum (map row_length (firstn i rest)) + j) by lia.
      eapply IH; eassumption.
Qed.

Lemma _flatten_list_field_eq (t : Table) (field : Field) (column : Column) :
  Table_column t (fst field) = Ok column ->
  _flatten_list_field t field = Ok [(fst field, list_flatten column)].
Proof. intros Hc. unfold _flatten_list_field. rewrite Hc. reflexivity. Qed.

Lemma build_field_list (t : Table) (field : Field) (column : Column)
  (cn keep : bool) (d : Dict) :
  is_list (snd field) = true ->
  Table_column t (fst field) = Ok column ->
  exists d',
    build_field t cn keep d field = Ok d'
    /\ dict_get d' (fst field) = Some (list_flatten column)
    /\ forall k, k <> fst field -> dict_get d' k = dict_get d k.
Proof.
  intros Hl Hc. unfold build_field.
  rewrite Hl, (_flatten_list_field_eq _ _ _ Hc), Hc.
  assert (is_struct (snd field) = false) as ->
      by (destruct (snd field); simpl in *; congruence).
  destruct (negb (is_nested (snd field)) || keep); simpl bind.
  - eexists; split; [reflexivity|]. unfold dict_update; simpl. split.
    + apply dict_get_set_same.
    + intros k Hk. rewrite !dict_get_set_other by assumption. reflexivity.
  - eexists; split; [reflexivity|]. unfold dict_update; simpl. split.
    + apply dict_get_set_same.
    + intros k Hk. apply dict_get_set_other. assumption.
Qed.

(** The step of a list field.  It is flattened into exactly one column, written
    under the field's own name and leaving every other name of the
    mapping as it was.  Its length is the sum of the rows' list
    lengths (a null or empty row counts for nothing); element [j] of
    row [i] stands at position (elements of the rows before [i]) + [j],
    and it stands there unchanged, a null element included. *)
Theorem list_field_concatenated :
  forall (t : Table) (field : Field) (column : Column)
         (composite_names keep : bool) (d : Dict),
    is_list (snd field) = true ->
    Table_column t (fst field) = Ok column ->
    let out := list_flatten column in
    _flatten_list_field t field = Ok [(fst field, out)]
    /\ (exists d',
          build_field t composite_names keep d field = Ok d'
          /\ dict_get d' (fst field) = Some out
          /\ forall k, k <> fst field -> dict_get d' k = dict_get d k)
    /\ len out = list_sum (map row_length (cvalues column))
    /\ (forall i elems j x,
          nth_error (cvalues column) i = Some (SList elems) ->
          nth_error elems j = Some x ->
          nth_error (cvalues out) (row_offset (cvalues column) i + j) = Some x).
Proof.
  intros t field column cn keep d Hl Hc out.
  split; [apply _flatten_list_field_eq; exact Hc|]. split; [|split].
  - apply build_field_list; assumption.
  - unfold len, out; simpl. apply list_flatten_length.
  - intros i elems j x Hi Hj. unfold out; simpl.
    eapply list_flatten_position; eassumption.
Qed.

Lemma list_field_concatenated_witness :
  _flatten_list_field TestData.list_with_none_table
                      ("list_with_none", TList (TPrim int64))
  = Ok [("list_with_none", mkColumn (TPrim int64) [SInt 1; SNull; SInt 5])].
Proof.
  apply (list_field_concatenated TestData.list_with_none_table
           ("list_with_none", TList (TPrim int64))
           (mkColumn (TList (TPrim int64)) [SList [SInt 1]; SList [SNull]; SList [SInt 5]])
           false false [] eq_refl eq_refl).
Defined.

(* ================================================================== *)
(** ** Map columns *)

Lemma map_outer_body_null (map_array : Column) (acc : KeysValues) (i : nat) :
  nth_error (cvalues map_array) i = Some SNull ->
  map_outer_body map_array acc i = Raise TypeError.
Proof.
  intros H. unfold map_outer_body, ChunkedArray_getitem.
  rewrite (nth_error_nth _ _ SNull H). reflexivity.
Qed.

Lemma map_outer_loop_null (map_array : Column) (i : nat) :
  nth_error (cvalues map_array) i = Some SNull ->
  forall acc, exists e,
    for_each (map_outer_body map_array) (seq 0 (len map_array)) acc = Raise e.
Proof.
  intros H acc.
  assert (i < len map_array) as Hlt by (apply nth_error_Some; congruence).
  replace (len map_array) with (i + S (len map_array - S i)) by lia.
  rewrite seq_app, for_each_app. simpl.
  destruct (for_each (map_outer_body map_array) (seq 0 i) acc) as [acc'|e]; simpl.
  - rewrite (map_outer_body_null _ _ _ H). simpl. eauto.
  - eauto.
Qed.

(** C2 (the code departs from it).  The null test of the map pass
    compares a scalar object with [None] and so never filters: when a
    map column holds a null row, [_flatten_map_field] raises instead
    of counting zero entries for it, and with it the pass and
    [flatten_all_columns] fail. *)
Theorem null_map_row_raises :
  forall (t : Table) (field : Field) (composite_names : bool)
         (column : Column) (i : nat),
    Table_column t (fst field) = Ok column ->
    nth_error (cvalues column) i = Some SNull ->
    exists e, _flatten_map_field t field composite_names = Raise e.
Proof.
  intros t field cn column i Hc Hi. unfold _flatten_map_field. rewrite Hc. simpl.
  destruct (map_outer_loop_null _ _ Hi ([], [])) as [e He].
  rewrite He. simpl. eauto.
Qed.

Lemma null_map_row_raises_witness :
  exists e,
    _flatten_map_field Inputs.null_map_table
                       ("m", TMap (TPrim string_) (TPrim int64)) false = Raise e.
Proof.
  apply (null_map_row_raises Inputs.null_map_table
           ("m", TMap (TPrim string_) (TPrim int64)) false
           Inputs.null_map_column 1 eq_refl eq_refl).
Defined.

(** The same input run through the public operation: the first pass
    raises the engine's [TypeError]; the held table is still the
    input. *)
Example null_map_table_fails :
  forall recursive composite_names keep,
    flatten_all_columns 1 (mkFlattener (Some Inputs.null_map_table) [])
                        recursive composite_names keep
    = (Raised TypeError,
       mkFlattener (Some Inputs.null_map_table) [LogInfoFlattening 1]).
Proof. intros [] [] []; reflexivity. Qed.

(* ================================================================== *)
(** ** The safe converter *)

Lemma mapping_get_spec (ty : DataType) :
  mapping_get dtype_mapping (KeyDataType ty) = option_map EntryDtype (spec_supported ty).
Proof. destruct ty as [p| | | | | |]; try reflexivity. destruct p; reflexivity. Qed.

Lemma convert_column_spec (c : Column) :
  convert_column (mapping_get dtype_mapping) c = Ok (spec_series c).
Proof.
  unfold convert_column, spec_series. rewrite mapping_get_spec.
  destruct (spec_supported (ctype c)); reflexivity.
Qed.

Lemma Table_to_pandas_spec (t : Table) :
  forall df,
    for_each
      (fun df nc =>
         s <- convert_column (mapping_get dtype_mapping) (snd nc) ;; Ok (df ++ [(fst nc, s)]))
      t df
    = Ok (df ++ map (fun nc => (fst nc, spec_series (snd nc))) t).
Proof.
  induction t as [|nc rest IH]; intros df; simpl.
  - rewrite app_nil_r. reflexivity.
  - rewrite convert_column_spec. simpl. rewrite IH, <- app_assoc. reflexivity.
Qed.

Lemma nullable_cell_NA (v : Scalar) : nullable_cell v = PdNA <-> v = SNull.
Proof. destruct v; simpl; split; intros H; try discriminate; reflexivity. Qed.

(** C7.  The lookup used as type mapper answers with the nullable
    dtype for each of the twelve supported primitive types and with
    nothing for every other type.  Hence [to_pandas_safe] converts
    every table column by column, a column of a supported type to its
    nullable dtype, any other column by the default conversion; in a
    supported column the cell of the dataframe is the missing-value
    marker exactly where the source cell is null, and the value itself
    elsewhere. *)
Theorem supported_primitives_nullable :
  (forall ty,
      mapping_get dtype_mapping (KeyDataType ty) = option_map EntryDtype (spec_supported ty))
  /\ (forall t,
        to_pandas_safe t = Ok (map (fun nc => (fst nc, spec_series (snd nc))) t))
  /\ (forall c d,
        spec_supported (ctype c) = Some d ->
        dtype (spec_series c) = d
        /\ List.length (cells (spec_series c)) = len c
        /\ forall i v,
             nth_error (cvalues c) i = Some v ->
             (v = SNull -> nth_error (cells (spec_series c)) i = Some PdNA)
             /\ (v <> SNull -> nth_error (cells (spec_series c)) i = Some (PdValue v)))
  /\ (forall c,
        spec_supported (ctype c) = None -> spec_series c = default_conversion c).
Proof.
  split; [exact mapping_get_spec|]. split; [|split].
  - intros t. unfold to_pandas_safe, Table_to_pandas. apply Table_to_pandas_spec.
  - intros c d Hd. unfold spec_series. rewrite Hd. simpl. split; [reflexivity|].
    split; [apply length_map|].
    intros i v Hv. rewrite nth_error_map, Hv. simpl. split.
    + intros ->. reflexivity.
    + intros Hne. destruct v; try reflexivity. congruence.
  - intros c Hn. unfold spec_series. rewrite Hn. reflexivity.
Qed.

(** The conversion at a table with null cells. *)
Example to_pandas_safe_nullable_table :
  to_pandas_safe Inputs.nullable_table
  = Ok [("n", mkSeries Int64Dtype [PdValue (SInt 1); PdNA; PdValue (SInt 5)]);
        ("s", mkSeries StringDtype [PdValue (SStr "a"); PdValue (SStr "b"); PdNA])].
Proof. reflexivity. Qed.

(** C3 (the code departs from it).  The handler for maps is stored
    under the function object [pa.map_], a key no data type is equal
    to: the lookup for a map type finds nothing and the column takes
    the default conversion.  A row with a repeated key comes out as
    the list of its stored pairs, both entries present, not as a
    dictionary holding the last value. *)
Theorem map_handler_never_applied :
  (forall kt vt, mapping_get dtype_mapping (KeyDataType (TMap kt vt)) = None)
  /\ (forall c,
        is_map (ctype c) = true ->
        convert_column (mapping_get dtype_mapping) c = Ok (default_conversion c))
  /\ to_pandas_safe Inputs.duplicate_key_table
     = Ok [("m", mkSeries numpy_object
                   [PdTuples [(SStr "a", SInt 1); (SStr "a", SInt 2)]])].
Proof.
  split; [reflexivity|]. split; [|reflexivity].
  intros c Hm. rewrite convert_column_spec. unfold spec_series.
  destruct (ctype c); try discriminate. reflexivity.
Qed.

(* ================================================================== *)
(** ** Keeping the nested columns *)

Lemma TList_not_itself (e : DataType) : e <> TList e.
Proof.
  induction e; try discriminate.
  intros H. injection H as H. contradiction.
Qed.

(** C6 (the code departs from it).  With [keep_nested_columns = true]
    the step of a list field first writes the original column under
    the field's name and then writes the flattened column under that
    same name: what the mapping holds for the name afterwards is the
    flattened column, and the original list column is not in the
    output. *)
Theorem kept_list_column_overwritten :
  forall (t : Table) (field : Field) (column : Column)
         (composite_names : bool) (d : Dict),
    is_list (snd field) = true ->
    ctype column = snd field ->
    Table_column t (fst field) = Ok column ->
    exists d',
      build_field t composite_names true d field = Ok d'
      /\ dict_get d' (fst field) = Some (list_flatten column)
      /\ dict_get d' (fst field) <> Some column
      /\ forall k, k <> fst field -> dict_get d' k = dict_get d k.
Proof.
  intros t field column cn d Hl Ht Hc.
  destruct (build_field_list t field column cn true d Hl Hc) as [d' [Hb [Hg Ho]]].
  exists d'. split; [exact Hb|]. split; [exact Hg|]. split; [|exact Ho].
  rewrite Hg. intros H. injection H as H.
  assert (ctype (list_flatten column) = ctype column) as Hty by (rewrite H; reflexivity).
  unfold list_flatten in Hty. simpl in Hty. rewrite Ht in Hty.
  destruct (snd field); try discriminate. simpl in Hty.
  exact (TList_not_itself _ Hty).
Qed.

Lemma kept_list_column_overwritten_witness :
  exists d',
    build_field Inputs.simple_list_table false true []
                ("simple_list", TList (TPrim int64)) = Ok d'
    /\ dict_get d' "simple_list" = Some (list_flatten TestData.simple_list_column)
    /\ dict_get d' "simple_list" <> Some TestData.simple_list_column
    /\ forall k, k <> "simple_list" -> dict_get d' k = dict_get [] k.
Proof.
  apply (kept_list_column_overwritten Inputs.simple_list_table
           ("simple_list", TList (TPrim int64)) TestData.simple_list_column
           false [] eq_refl eq_refl eq_refl).
Defined.

(** The same input run through one pass: the output has the single
    column [simple_list] of integers, the list-typed original is
    gone. *)
Example kept_list_table_pass :
  forall composite_names,
    _flatten_nested_columns Inputs.simple_list_table composite_names true
    = Ok [("simple_list", mkColumn (TPrim int64) [SInt 1; SInt 5])].
Proof. intros []; reflexivity. Qed.

(* ================================================================== *)
(** ** More facts about the name-to-array mapping *)

Lemma dict_set_fresh (d : Dict) (k : string) (v : Column) :
  ~ In k (dict_keys d) -> dict_set d k v = d ++ [(k, v)].
Proof.
  induction d as [|[k' v'] rest IH]; simpl; intros Hn; [reflexivity|].
  destruct (String.eqb k' k) eqn:E.
  - apply String.eqb_eq in E. exfalso. apply Hn. left. exact E.
  - rewrite IH; [reflexivity|]. intros H. apply Hn. right. exact H.
Qed.

Lemma dict_update_fresh (items : list (string * Column)) :
  forall d,
    NoDup (dict_keys d ++ map fst items) -> dict_update d items = d ++ items.
Proof.
  unfold dict_update.
  induction items as [|[k v] rest IH]; intros d Hnd; simpl.
  - rewrite app_nil_r. reflexivity.
  - simpl in Hnd. pose proof (NoDup_remove_2 _ _ _ Hnd) as Hk.
    rewrite dict_set_fresh by (intros H; apply Hk; apply in_or_app; left; exact H).
    rewrite IH.
    + rewrite <- app_assoc. reflexivity.
    + unfold dict_keys. rewrite map_app. simpl. rewrite <- app_assoc. exact Hnd.
Qed.

Lemma dict_update_get_other (items : list (string * Column)) (k : string) :
  ~ In k (map fst items) ->
  forall d, dict_get (dict_update d items) k = dict_get d k.
Proof.
  unfold dict_update.
  induction items as [|[k' v'] rest IH]; simpl; intros Hn d; [reflexivity|].
  rewrite IH by tauto. apply dict_get_set_other. intros ->. tauto.
Qed.

Lemma dict_update_get_last (pre post : list (string * Column)) (k : string) (v : Column) :
  ~ In k (map fst post) ->
  forall d, dict_get (dict_update d (pre ++ (k, v) :: post)) k = Some v.
Proof.
  intros Hn d. unfold dict_update. rewrite fold_left_app. simpl.
  fold (dict_update (dict_set (fold_left (fun acc kv => dict_set acc (fst kv) (snd kv)) pre d) k v) post).
  rewrite dict_update_get_other by exact Hn. apply dict_get_set_same.
Qed.

Lemma dict_keys_set_In (d : Dict) (k : string) (v : Column) (x : string) :
  In x (dict_keys (dict_set d k v)) <-> In x (dict_keys d) \/ x = k.
Proof.
  rewrite dict_keys_set.
  destruct (existsb (String.eqb k) (dict_keys d)) eqn:E.
  - split; [tauto|]. intros [H | ->]; [exact H|].
    apply existsb_exists in E. destruct E as [y [Hy Hky]].
    apply String.eqb_eq in Hky. subst y. exact Hy.
  - rewrite in_app_iff. simpl. split; intros H; [|destruct H; auto].
    destruct H as [H | [H | []]]; auto.
Qed.

Lemma dict_keys_set_NoDup (d : Dict) (k : string) (v : Column) :
  NoDup (dict_keys d) -> NoDup (dict_keys (dict_set d k v)).
Proof.
  intros Hnd. rewrite dict_keys_set.
  destruct (existsb (String.eqb k) (dict_keys d)) eqn:E; [exact Hnd|].
  apply NoDup_app; [exact Hnd | constructor; [simpl; tauto | constructor] |].
  intros x Hx [Heq | []]. subst x.
  assert (existsb (String.eqb k) (dict_keys d) = true) as C
      by (apply existsb_exists; exists k; split; [exact Hx | apply String.eqb_refl]).
  congruence.
Qed.

Lemma dict_keys_update_In (items : list (string * Column)) (x : string) :
  forall d,
    In x (dict_keys (dict_update d items)) <-> In x (dict_keys d) \/ In x (map fst items).
Proof.
  unfold dict_update.
  induction items as [|[k v] rest IH]; intros d; simpl; [tauto|].
  rewrite IH, dict_keys_set_In. intuition auto.
Qed.

Lemma dict_keys_update_NoDup (items : list (string * Column)) :
  forall d, NoDup (dict_keys d) -> NoDup (dict_keys (dict_update d items)).
Proof.
  unfold dict_update.
  induction items as [|[k v] rest IH]; intros d Hnd; simpl; [exact Hnd|].
  apply IH. apply dict_keys_set_NoDup. exact Hnd.
Qed.

Lemma dict_get_None (d : Dict) (k : string) :
  ~ In k (dict_keys d) -> dict_get d k = None.
Proof.
  induction d as [|[k' v'] rest IH]; simpl; intros Hn; [reflexivity|].
  destruct (String.eqb k' k) eqn:E.
  - apply String.eqb_eq in E. tauto.
  - apply IH. tauto.
Qed.

Lemma dict_get_In (d : Dict) (k : string) (v : Column) :
  dict_get d k = Some v -> In k (dict_keys d).
Proof.
  induction d as [|[k' v'] rest IH]; simpl; [discriminate|].
  destruct (String.eqb k' k) eqn:E; intros H.
  - apply String.eqb_eq in E. auto.
  - right. apply IH. exact H.
Qed.

(** Merging a dictionary into a mapping makes every binding of the
    dictionary a binding of the mapping. *)
Lemma dict_update_get_sub (sub : Dict) :
  NoDup (dict_keys sub) ->
  forall d k v, dict_get sub k = Some v -> dict_get (dict_update d sub) k = Some v.
Proof.
  induction sub as [|[k0 v0] rest IH]; intros Hnd d k v; simpl; [discriminate|].
  inversion Hnd as [|? ? Hk0 Hrest]; subst.
  destruct (String.eqb k0 k) eqn:E; intros H.
  - apply String.eqb_eq in E. subst k0. injection H as ->.
    unfold dict_update. simpl.
    fold (dict_update (dict_set d k v) rest).
    rewrite dict_update_get_other by exact Hk0. apply dict_get_set_same.
  - unfold dict_update. simpl. fold (dict_update (dict_set d k0 v0) rest).
    apply IH; assumption.
Qed.

(* ================================================================== *)
(** ** Struct columns *)

Lemma append_cancel_l (p a b : string) : (p ++ a)%string = (p ++ b)%string -> a = b.
Proof.
  induction p as [|c p IH]; simpl; intros H; [exact H|].
  injection H as H. apply IH. exact H.
Qed.

Lemma subfield_name_inj (parent : string) (cn : bool) (a b : string) :
  subfield_name parent cn a = subfield_name parent cn b -> a = b.
Proof.
  unfold subfield_name. destruct cn; [|auto].
  intros H. apply append_cancel_l in H. apply (append_cancel_l "." a b H).
Qed.

Lemma _generate_subfield_names_eq (field : Field) (cn : bool) :
  _generate_subfield_names field cn
  = map (fun sub => subfield_name (fst field) cn (fst sub)) (type_fields (snd field)).
Proof. unfold _generate_subfield_names, subfield_name. destruct cn; reflexivity. Qed.

Lemma zip_struct_items (parent : string) (cn : bool) (column : Column) (fs : list Field) :
  forall start,
    combine (map (fun sub => subfield_name parent cn (fst sub)) fs)
            (map (fun kf => mkColumn (snd (snd kf))
                                     (map (struct_child (fst kf)) (cvalues column)))
                 (combine (seq start (List.length fs)) fs))
    = struct_items parent cn column start fs.
Proof.
  induction fs as [|sub rest IH]; intros start; simpl; [reflexivity|].
  rewrite IH. reflexivity.
Qed.

Lemma _flatten_struct_field_eq (t : Table) (field : Field) (cn : bool)
  (column : Column) (fs : list Field) :
  snd field = TStruct fs ->
  ctype column = TStruct fs ->
  Table_column t (fst field) = Ok column ->
  _flatten_struct_field t field cn
  = Ok (dict_update [] (struct_items (fst field) cn column 0 fs)).
Proof.
  intros Hf Hty Hc. unfold _flatten_struct_field. rewrite Hc. simpl.
  rewrite _generate_subfield_names_eq, Hf. unfold ChunkedArray_flatten. rewrite Hty.
  unfold dict_zip. simpl type_fields. rewrite zip_struct_items. reflexivity.
Qed.

Lemma struct_items_app (parent : string) (cn : bool) (column : Column)
  (pre post : list Field) :
  forall start,
    struct_items parent cn column start (pre ++ post)
    = struct_items parent cn column start pre
      ++ struct_items parent cn column (start + List.length pre) post.
Proof.
  induction pre as [|sub rest IH]; intros start; simpl.
  - rewrite Nat.add_0_r. reflexivity.
  - rewrite IH. rewrite Nat.add_succ_r. reflexivity.
Qed.

Lemma struct_items_keys (parent : string) (cn : bool) (column : Column) (fs : list Field) :
  forall start,
    map fst (struct_items parent cn column start fs)
    = map (fun sub => subfield_name parent cn (fst sub)) fs.
Proof.
  induction fs as [|sub rest IH]; intros start; simpl; [reflexivity|].
  rewrite IH. reflexivity.
Qed.

Lemma struct_items_length (parent : string) (cn : bool) (column : Column) (fs : list Field) :
  forall start, List.length (struct_items parent cn column start fs) = List.length fs.
Proof.
  induction fs as [|sub rest IH]; intros start; simpl; [reflexivity|].
  rewrite IH. reflexivity.
Qed.

Lemma subfield_names_NoDup (parent : string) (cn : bool) (fs : list Field) :
  NoDup (map fst fs) -> NoDup (map (fun sub => subfield_name parent cn (fst sub)) fs).
Proof.
  induction fs as [|sub rest IH]; simpl; intros H; [constructor|].
  inversion H as [|? ? Hn Hr]; subst. constructor; [|apply IH; exact Hr].
  intros Hin. apply in_map_iff in Hin. destruct Hin as [sub' [Heq Hin']].
  apply subfield_name_inj in Heq. apply Hn. rewrite <- Heq.
  apply in_map. exact Hin'.
Qed.

Lemma build_field_struct (t : Table) (field : Field) (column : Column)
  (cn keep : bool) (d0 sub : Dict) :
  is_struct (snd field) = true ->
  Table_column t (fst field) = Ok column ->
  _flatten_struct_field t field cn = Ok sub ->
  build_field t cn keep d0 field
  = Ok (dict_update (if keep then dict_set d0 (fst field) column else d0) sub).
Proof.
  intros Hs Hc Hf. unfold build_field. rewrite Hs, Hf, Hc.
  assert (is_nested (snd field) = true) as ->
      by (destruct (snd field); simpl in *; congruence).
  destruct keep; reflexivity.
Qed.

Lemma struct_items_get_last (parent : string) (cn : bool) (column : Column)
  (pre post : list Field) (sub : Field) :
  ~ In (fst sub) (map fst post) ->
  dict_get (dict_update [] (struct_items parent cn column 0 (pre ++ sub :: post)))
           (subfield_name parent cn (fst sub))
  = Some (subfield_column column (List.length pre) sub).
Proof.
  intros Hn. rewrite struct_items_app. simpl.
  apply dict_update_get_last. rewrite struct_items_keys.
  intros Hin. apply in_map_iff in Hin. destruct Hin as [sub' [Heq Hin']].
  apply subfield_name_inj in Heq. apply Hn. rewrite <- Heq. apply in_map. exact Hin'.
Qed.

(** C5, as amended.  The step of a struct field decomposes the column
    into its sub-field columns and names them by the policy.  The
    mapping it returns has one entry per distinct sub-field name; the
    entry of a name holds, row for row and null where the struct row
    is null, the values of the last sub-field carrying that name.
    When the sub-field names are pairwise distinct this is exactly one
    column per sub-field.  Every entry is written into the mapping of
    the pass. *)
Theorem struct_field_decomposed :
  forall (t : Table) (field : Field) (column : Column)
         (composite_names : bool) (fs : list Field),
    snd field = TStruct fs ->
    ctype column = TStruct fs ->
    Table_column t (fst field) = Ok column ->
    exists d,
      _flatten_struct_field t field composite_names = Ok d
      /\ NoDup (dict_keys d)
      /\ (forall name,
            In name (dict_keys d) <->
            exists sub, In sub fs
                        /\ name = subfield_name (fst field) composite_names (fst sub))
      /\ (forall pre sub post,
            fs = pre ++ sub :: post ->
            ~ In (fst sub) (map fst post) ->
            dict_get d (subfield_name (fst field) composite_names (fst sub))
            = Some (subfield_column column (List.length pre) sub))
      /\ (forall k sub i row,
            nth_error (cvalues column) i = Some row ->
            nth_error (cvalues (subfield_column column k sub)) i
            = Some (struct_child k row))
      /\ (NoDup (map fst fs) -> one_column_per_subfield t field composite_names)
      /\ (forall d0 keep,
            exists d',
              build_field t composite_names keep d0 field = Ok d'
              /\ forall name col, dict_get d name = Some col -> dict_get d' name = Some col).
Proof.
  intros t field column cn fs Hf Hty Hc.
  pose proof (_flatten_struct_field_eq t field cn column fs Hf Hty Hc) as Hd.
  exists (dict_update [] (struct_items (fst field) cn column 0 fs)).
  assert (NoDup (dict_keys (dict_update [] (struct_items (fst field) cn column 0 fs))))
    as Hnd by (apply dict_keys_update_NoDup; constructor).
  assert (forall pre sub post,
             fs = pre ++ sub :: post ->
             ~ In (fst sub) (map fst post) ->
             dict_get (dict_update [] (struct_items (fst field) cn column 0 fs))
                      (subfield_name (fst field) cn (fst sub))
             = Some (subfield_column column (List.length pre) sub)) as Hlast
      by (intros pre sub post -> Hn; apply struct_items_get_last; exact Hn).
  split; [exact Hd|]. split; [exact Hnd|]. split; [|split; [exact Hlast|split; [|split]]].
  - intros name. rewrite dict_keys_update_In, struct_items_keys, in_map_iff. simpl.
    split.
    + intros [[] | [sub [Heq Hin]]]. exists sub. auto.
    + intros [sub [Hin ->]]. right. exists sub. auto.
  - intros k sub i row Hrow. unfold subfield_column. simpl.
    rewrite nth_error_map, Hrow. reflexivity.
  - intros Hnames. exists column, (dict_update [] (struct_items (fst field) cn column 0 fs)).
    split; [exact Hc|]. split; [exact Hd|]. rewrite Hf. simpl type_fields. split.
    + rewrite dict_update_fresh.
      * simpl. apply struct_items_length.
      * simpl. rewrite struct_items_keys. apply subfield_names_NoDup. exact Hnames.
    + intros k sub Hk. destruct (nth_error_split _ _ Hk) as [pre [post [Hfs Hlen]]].
      rewrite <- Hlen. apply (Hlast pre sub post Hfs).
      rewrite Hfs, map_app in Hnames. simpl in Hnames.
      apply NoDup_remove_2 in Hnames. intros Hin. apply Hnames.
      apply in_or_app. right. exact Hin.
  - intros d0 keep.
    assert (is_struct (snd field) = true) as Hs by (rewrite Hf; reflexivity).
    rewrite (build_field_struct t field column cn keep d0 _ Hs Hc Hd).
    eexists. split; [reflexivity|].
    intros name col Hg. apply dict_update_get_sub; assumption.
Qed.

Lemma struct_field_decomposed_witness :
  one_column_per_subfield Inputs.person_table ("person", TestData.person_type) true.
Proof.
  destruct (struct_field_decomposed Inputs.person_table ("person", TestData.person_type)
              TestData.person_column true
              [("name", TPrim string_); ("age", TPrim int64)]
              eq_refl eq_refl eq_refl) as [d [_ [_ [_ [_ [_ [H _]]]]]]].
  apply H. repeat constructor; simpl; intuition discriminate.
Defined.

(** C5, as stated, fails on a struct whose two sub-fields share a
    name: the mapping returned has one column for the two of them. *)
Lemma duplicate_subfields_collapse :
  ~ one_column_per_subfield Inputs.twin_table ("s", Inputs.twin_type) false.
Proof.
  intros [column [d [_ [Hf [Hlen _]]]]].
  vm_compute in Hf. injection Hf as <-. simpl in Hlen. discriminate.
Qed.

(** What the step returns there: the one column is the second
    sub-field's. *)
Example twin_struct_field :
  _flatten_struct_field Inputs.twin_table ("s", Inputs.twin_type) false
  = Ok [("a", mkColumn (TPrim string_) [SStr "one"; SStr "two"])].
Proof. reflexivity. Qed.

(* ================================================================== *)
(** ** The loop of [flatten_all_columns] *)

(** More passes never change an outcome that was reached. *)
Lemma flatten_all_loop_monotone (fuel : nat) (r cn keep : bool) :
  forall t lg extra,
    fst (flatten_all_loop fuel r cn keep t lg) <> Running ->
    flatten_all_loop (fuel + extra) r cn keep t lg = flatten_all_loop fuel r cn keep t lg.
Proof.
  induction fuel as [|fuel IH]; intros t lg extra; simpl.
  - destruct (_has_nested_columns t) eqn:En; simpl; [congruence|].
    intros _. apply flatten_all_loop_flat. exact En.
  - destruct (_has_nested_columns t); [|reflexivity].
    destruct (_flatten_nested_columns t cn keep) as [t'|e]; [|reflexivity].
    destruct r; simpl; [apply IH | reflexivity].
Qed.

(** A table with nested columns that a pass maps to itself keeps the
    loop running for ever. *)
Lemma flatten_all_loop_fixed_point (cn keep : bool) (t : Table) :
  _has_nested_columns t = true ->
  _flatten_nested_columns t cn keep = Ok t ->
  forall fuel lg, fst (flatten_all_loop fuel true cn keep t lg) = Running.
Proof.
  intros Hn Hp fuel. induction fuel as [|fuel IH]; intros lg; simpl; rewrite Hn.
  - reflexivity.
  - rewrite Hp. simpl. apply IH.
Qed.

(** C1 (the code departs from it).  With [recursive = true] and
    [keep_nested_columns = true] the loop does not end on a table
    with one struct column: every pass keeps the struct column, so the
    loop condition holds again after it.  However many passes are
    allowed, the call has neither returned nor raised. *)
Theorem keep_nested_recursive_never_ends :
  forall (fuel : nat) (composite_names : bool),
    fst (flatten_all_columns fuel (mkFlattener (Some Inputs.person_table) [])
                             true composite_names true)
    = Running.
Proof.
  intros fuel cn. unfold flatten_all_columns, _validate_table_set. simpl _table. cbv iota.
  destruct fuel as [|fuel]; [reflexivity|].
  destruct cn.
  - change (fst (flatten_all_loop fuel true true true
                   [("person", TestData.person_column);
                    ("person.name", mkColumn (TPrim string_) [SStr "Alice"; SStr "Bob"]);
                    ("person.age", mkColumn (TPrim int64) [SInt 30; SInt 25])]
                   [LogInfoFlattening 1; LogInfoPerformance]) = Running).
    apply flatten_all_loop_fixed_point; reflexivity.
  - change (fst (flatten_all_loop fuel true false true
                   [("person", TestData.person_column);
                    ("name", mkColumn (TPrim string_) [SStr "Alice"; SStr "Bob"]);
                    ("age", mkColumn (TPrim int64) [SInt 30; SInt 25])]
                   [LogInfoFlattening 1; LogInfoPerformance]) = Running).
    apply flatten_all_loop_fixed_point; reflexivity.
Qed.

(** The pass at that table and at the table it produces. *)
Example person_table_pass_keeps_struct :
  let kept :=
    [("person", TestData.person_column);
     ("person.name", mkColumn (TPrim string_) [SStr "Alice"; SStr "Bob"]);
     ("person.age", mkColumn (TPrim int64) [SInt 30; SInt 25])] in
  _flatten_nested_columns Inputs.person_table true true = Ok kept
  /\ _flatten_nested_columns kept true true = Ok kept
  /\ _has_nested_columns kept = true.
Proof. repeat split. Qed.

(* ================================================================== *)
(** ** Nesting depth and the passes without kept columns *)

Lemma depth_struct_field (fs : list Field) (f : Field) :
  In f fs -> S (depth (snd f)) <= depth (TStruct fs).
Proof.
  induction fs as [|g rest IH]; intros Hin; [destruct Hin|].
  simpl in *. destruct Hin as [-> | Hin].
  - lia.
  - specialize (IH Hin). lia.
Qed.

Lemma is_nested_depth (ty : DataType) :
  is_nested ty = false -> depth ty = 0.
Proof. destruct ty; simpl; intros H; try discriminate; reflexivity. Qed.

Lemma table_depth_In (t : Table) (name : string) (c : Column) :
  In (name, c) t -> depth (ctype c) <= table_depth t.
Proof.
  unfold table_depth. induction t as [|nc rest IH]; intros Hin; [destruct Hin|].
  simpl. destruct Hin as [-> | Hin]; simpl.
  - lia.
  - specialize (IH Hin). lia.
Qed.

Lemma table_depth_Forall (n : nat) (t : Table) :
  dict_depth_le n t -> table_depth t <= n.
Proof.
  unfold dict_depth_le, table_depth. induction 1 as [|nc rest Hnc _ IH]; simpl; lia.
Qed.

Lemma Table_column_filter (t : Table) (name : string) (c : Column) :
  Table_column t name = Ok c ->
  exists n, filter (fun nc => String.eqb (fst nc) name) t = [(n, c)].
Proof.
  unfold Table_column.
  destruct (filter _ t) as [|[n c'] [|p rest]]; intros H; try discriminate.
  injection H as ->. exists n. reflexivity.
Qed.

Lemma Table_column_In (t : Table) (name : string) (c : Column) :
  Table_column t name = Ok c -> In (name, c) t.
Proof.
  intros H. destruct (Table_column_filter _ _ _ H) as [n Hf].
  assert (In (n, c) (filter (fun nc => String.eqb (fst nc) name) t)) as Hin
      by (rewrite Hf; left; reflexivity).
  apply filter_In in Hin. destruct Hin as [Hin He]. simpl in He.
  apply String.eqb_eq in He. subst n. exact Hin.
Qed.

(** The column fetched by a field's name is that field's column. *)
Lemma Table_column_schema (t : Table) (field : Field) (c : Column) :
  In field (schema t) ->
  Table_column t (fst field) = Ok c ->
  ctype c = snd field.
Proof.
  intros Hin H. destruct (Table_column_filter _ _ _ H) as [n Hf].
  unfold schema in Hin. apply in_map_iff in Hin. destruct Hin as [nc [Heq Hnc]].
  subst field. simpl in *.
  assert (In nc (filter (fun nc' => String.eqb (fst nc') (fst nc)) t)) as Hin
      by (apply filter_In; split; [exact Hnc | apply String.eqb_refl]).
  rewrite Hf in Hin. destruct Hin as [<- | []]. reflexivity.
Qed.

Lemma dict_set_depth (n : nat) (d : Dict) (k : string) (v : Column) :
  dict_depth_le n d -> depth (ctype v) <= n -> dict_depth_le n (dict_set d k v).
Proof.
  unfold dict_depth_le. intros Hd Hv.
  induction Hd as [|[k' v'] rest Hh Hrest IH]; simpl.
  - constructor; [exact Hv | constructor].
  - destruct (String.eqb k' k); constructor; simpl; auto.
Qed.

Lemma dict_update_depth (n : nat) (items : list (string * Column)) :
  dict_depth_le n items ->
  forall d, dict_depth_le n d -> dict_depth_le n (dict_update d items).
Proof.
  unfold dict_update.
  induction 1 as [|[k v] rest Hh _ IH]; intros d Hd; simpl; [exact Hd|].
  apply IH. apply dict_set_depth; assumption.
Qed.

Lemma dict_zip_depth (n : nat) (names : list string) (columns : list Column) :
  Forall (fun c => depth (ctype c) <= n) columns ->
  dict_depth_le n (dict_zip names columns).
Proof.
  intros H. unfold dict_zip. apply dict_update_depth; [|constructor].
  revert names. induction H as [|c rest Hc _ IH]; intros [|name names]; simpl;
    try constructor; auto. apply IH.
Qed.

Lemma ChunkedArray_flatten_depth (n : nat) (c : Column) :
  is_struct (ctype c) = true ->
  depth (ctype c) <= S n ->
  Forall (fun c' => depth (ctype c') <= n) (ChunkedArray_flatten c).
Proof.
  unfold ChunkedArray_flatten. destruct (ctype c) as [| fs | | | | |] eqn:E;
    try discriminate. intros _ Hd.
  apply Forall_forall. intros c' Hin. apply in_map_iff in Hin.
  destruct Hin as [[k f] [<- Hin]]. simpl.
  apply in_combine_r in Hin. pose proof (depth_struct_field fs f Hin). lia.
Qed.

Lemma list_flatten_depth (n : nat) (c : Column) :
  is_list (ctype c) = true ->
  depth (ctype c) <= S n ->
  depth (ctype (list_flatten c)) <= n.
Proof.
  unfold list_flatten. simpl. destruct (ctype c); try discriminate.
  simpl. intros _ H. lia.
Qed.

Lemma for_each_invariant (A S : Type) (P : S -> Prop) (body : S -> A -> result S)
  (xs : list A) :
  (forall s x s', In x xs -> P s -> body s x = Ok s' -> P s') ->
  forall s s', P s -> for_each body xs s = Ok s' -> P s'.
Proof.
  induction xs as [|x rest IH]; intros Hbody s s' Hs; simpl.
  - intros H. injection H as <-. exact Hs.
  - intros H. apply bind_Ok_inv in H. destruct H as [s1 [H1 H2]].
    apply (IH (fun s0 x0 s0' Hin => Hbody s0 x0 s0' (or_intror Hin)) s1 s').
    + apply (Hbody s x s1); [left; reflexivity | exact Hs | exact H1].
    + exact H2.
Qed.

Lemma map_inner_body_depth (n : nat) (item : PyObject) (acc acc' : KeysValues) (j : nat) :
  pyobject_depth_le (S n) item ->
  keys_values_depth_le n acc ->
  map_inner_body item acc j = Ok acc' ->
  keys_values_depth_le n acc'.
Proof.
  unfold map_inner_body. intros Hitem [Hk Hv] H.
  apply bind_Ok_inv in H. destruct H as [[ko vo] [Hget H]].
  injection H as <-. simpl.
  destruct item as [|ty v]; [discriminate|]. simpl in Hget, Hitem.
  destruct ty; try discriminate. destruct v; try discriminate.
  destruct (nth_error entries j) as [[k v]|]; [|discriminate].
  injection Hget as <- <-. simpl in Hitem.
  split; apply Forall_app; split; auto; constructor; simpl; try constructor; lia.
Qed.

Lemma map_outer_body_depth (n : nat) (map_array : Column) (acc acc' : KeysValues) (i : nat) :
  depth (ctype map_array) <= S n ->
  keys_values_depth_le n acc ->
  map_outer_body map_array acc i = Ok acc' ->
  keys_values_depth_le n acc'.
Proof.
  unfold map_outer_body. simpl is_not_None. cbv iota. intros Hd Hacc H.
  apply bind_Ok_inv in H. destruct H as [m [_ H]].
  revert H. apply for_each_invariant; [|exact Hacc].
  intros s j s' _ Hs Hb. eapply map_inner_body_depth; [|exact Hs|exact Hb].
  simpl. exact Hd.
Qed.

Lemma pa_array_depth (n : nat) (objs : list PyObject) :
  Forall (pyobject_depth_le n) objs -> depth (ctype (pa_array objs)) <= n.
Proof.
  intros H. destruct H as [|o rest Ho _]; simpl; [lia|].
  destruct o; simpl in *; [lia | exact Ho].
Qed.

Lemma _flatten_map_field_depth (n : nat) (t : Table) (field : Field) (cn : bool) (sub : Dict) :
  table_depth t <= S n ->
  _flatten_map_field t field cn = Ok sub ->
  dict_depth_le n sub.
Proof.
  intros Ht H. unfold _flatten_map_field in H.
  apply bind_Ok_inv in H. destruct H as [map_array [Hc H]].
  apply bind_Ok_inv in H. destruct H as [acc [Hloop H]].
  injection H as <-.
  assert (keys_values_depth_le n acc) as [Hk Hv].
  { revert Hloop. apply for_each_invariant; [|split; constructor].
    intros s i s' _ Hs Hb. eapply map_outer_body_depth; [|exact Hs|exact Hb].
    apply Table_column_In in Hc. apply table_depth_In in Hc. lia. }
  apply dict_zip_depth. repeat constructor; apply pa_array_depth; assumption.
Qed.

Lemma build_field_depth (n : nat) (t : Table) (cn : bool) (d d' : Dict) (field : Field) :
  table_depth t <= S n ->
  In field (schema t) ->
  dict_depth_le n d ->
  build_field t cn false d field = Ok d' ->
  dict_depth_le n d'.
Proof.
  intros Ht Hin Hd H. unfold build_field in H.
  apply bind_Ok_inv in H. destruct H as [d1 [H1 H]].
  assert (dict_depth_le n d1) as Hd1.
  { rewrite orb_false_r in H1. destruct (is_nested (snd field)) eqn:En; simpl in H1.
    - injection H1 as <-. exact Hd.
    - apply bind_Ok_inv in H1. destruct H1 as [c [Hc H1]]. injection H1 as <-.
      apply dict_set_depth; [exact Hd|].
      rewrite (Table_column_schema _ _ _ Hin Hc), (is_nested_depth _ En). lia. }
  assert (forall c, Table_column t (fst field) = Ok c -> depth (ctype c) <= S n) as Hcol.
  { intros c Hc. apply Table_column_In in Hc. apply table_depth_In in Hc. lia. }
  destruct (is_struct (snd field)) eqn:Es.
  { apply bind_Ok_inv in H. destruct H as [sub [Hs H]]. injection H as <-.
    apply dict_update_depth; [|exact Hd1].
    unfold _flatten_struct_field in Hs.
    apply bind_Ok_inv in Hs. destruct Hs as [c [Hc Hs]]. injection Hs as <-.
    apply dict_zip_depth. apply ChunkedArray_flatten_depth; [|auto].
    rewrite (Table_column_schema _ _ _ Hin Hc). exact Es. }
  destruct (is_list (snd field)) eqn:El.
  { apply bind_Ok_inv in H. destruct H as [sub [Hs H]]. injection H as <-.
    apply dict_update_depth; [|exact Hd1].
    unfold _flatten_list_field in Hs.
    apply bind_Ok_inv in Hs. destruct Hs as [c [Hc Hs]]. injection Hs as <-.
    apply dict_zip_depth. repeat constructor. apply list_flatten_depth; [|auto].
    rewrite (Table_column_schema _ _ _ Hin Hc). exact El. }
  destruct (is_map (snd field)).
  { apply bind_Ok_inv in H. destruct H as [sub [Hs H]]. injection H as <-.
    apply dict_update_depth; [|exact Hd1].
    eapply _flatten_map_field_depth; eassumption. }
  injection H as <-. exact Hd1.
Qed.

(** A pass without kept columns lowers the nesting depth of the
    schema by at least one. *)
Lemma _flatten_nested_columns_depth (n : nat) (t t' : Table) (cn : bool) :
  table_depth t <= S n ->
  _flatten_nested_columns t cn false = Ok t' ->
  table_depth t' <= n.
Proof.
  intros Ht H. unfold _flatten_nested_columns in H.
  apply bind_Ok_inv in H. destruct H as [d [Hb Hp]].
  assert (dict_depth_le n d) as Hd.
  { unfold _build_flattened_arrays_dict in Hb. revert Hb.
    apply for_each_invariant; [|constructor].
    intros s field s' Hin Hs Hstep. eapply build_field_depth; eassumption. }
  assert (t' = d) as ->.
  { destruct d as [|[k c0] rest]; simpl in Hp; [congruence|].
    destruct (forallb _ rest); congruence. }
  apply table_depth_Forall. exact Hd.
Qed.

Lemma _has_nested_columns_depth (t : Table) :
  table_depth t = 0 -> _has_nested_columns t = false.
Proof.
  intros H. unfold _has_nested_columns.
  destruct (existsb (fun field => is_nested (snd field)) (schema t)) eqn:E;
    [|reflexivity].
  apply existsb_exists in E. destruct E as [field [Hin Hn]].
  unfold schema in Hin. apply in_map_iff in Hin. destruct Hin as [[name c] [<- Hin]].
  apply table_depth_In in Hin. simpl in Hn.
  destruct (ctype c); simpl in *; try discriminate; lia.
Qed.

Lemma flatten_all_loop_ends (fuel : nat) (r cn : bool) :
  forall t lg,
    table_depth t <= fuel ->
    fst (flatten_all_loop fuel r cn false t lg) <> Running.
Proof.
  induction fuel as [|fuel IH]; intros t lg Hd.
  - rewrite flatten_all_loop_flat by (apply _has_nested_columns_depth; lia).
    discriminate.
  - simpl. destruct (_has_nested_columns t); [|discriminate].
    destruct (_flatten_nested_columns t cn false) as [t'|e] eqn:E; [|discriminate].
    destruct r; simpl; [|discriminate].
    apply IH. eapply _flatten_nested_columns_depth; eassumption.
Qed.

(** X1.  With [keep_nested_columns = false] the loop of
    [flatten_all_columns] ends for every table and both settings of
    the other flags: as many passes as the nesting depth of the held
    schema are enough for the call to return or raise, and allowing
    more passes does not change what it does. *)
Theorem flatten_without_keep_terminates :
  forall (self : Flattener) (recursive composite_names : bool),
    let bound := match _table self with Some t => table_depth t | None => 0 end in
    fst (flatten_all_columns bound self recursive composite_names false) <> Running
    /\ (forall extra,
          flatten_all_columns (bound + extra) self recursive composite_names false
          = flatten_all_columns bound self recursive composite_names false).
Proof.
  intros self r cn. unfold flatten_all_columns, _validate_table_set.
  destruct (_table self) as [t|]; simpl.
  - assert (fst (flatten_all_loop (table_depth t) r cn false t (log self)) <> Running)
      as H by (apply flatten_all_loop_ends; lia).
    split; [exact H|]. intros extra. apply flatten_all_loop_monotone. exact H.
  - split; [discriminate | reflexivity].
Qed.

(** The repository's first test table has depth 2 and is flat after
    two passes. *)
Example composite_keys_table_two_passes :
  table_depth TestData.composite_keys_table = 2
  /\ fst (flatten_all_columns 1 (mkFlattener (Some TestData.composite_keys_table) [])
                              true true false) = Running
  /\ exists flat,
       fst (flatten_all_columns 2 (mkFlattener (Some TestData.composite_keys_table) [])
                                true true false) = Returned flat
       /\ table_depth flat = 0.
Proof. split; [reflexivity|]. split; [reflexivity|]. eexists. split; reflexivity. Qed.

(* ================================================================== *)
(** ** Map columns without null rows *)

Lemma string_append_assoc (a b c : string) :
  ((a ++ b) ++ c)%string = (a ++ (b ++ c))%string.
Proof. induction a as [|x a IH]; simpl; [reflexivity | rewrite IH; reflexivity]. Qed.

Lemma map_inner_loop (kt vt : DataType) (suf : list (Scalar * Scalar)) :
  forall pre acc,
    for_each (map_inner_body (PyScalar (TMap kt vt) (SMap (pre ++ suf))))
             (seq (List.length pre) (List.length suf)) acc
    = Ok (fst acc ++ map (fun e => PyScalar kt (fst e)) suf,
          snd acc ++ map (fun e => PyScalar vt (snd e)) suf).
Proof.
  induction suf as [|e rest IH]; intros pre acc; simpl.
  - rewrite !app_nil_r. destruct acc; reflexivity.
  - unfold map_inner_body at 1. simpl.
    rewrite nth_error_app2 by lia. rewrite Nat.sub_diag. simpl. destruct e as [k v]. simpl.
    replace (pre ++ (k, v) :: rest) with ((pre ++ [(k, v)]) ++ rest)
      by (rewrite <- app_assoc; reflexivity).
    replace (S (List.length pre)) with (List.length (pre ++ [(k, v)]))
      by (rewrite length_app; simpl; lia).
    rewrite IH. simpl. rewrite <- !app_assoc. reflexivity.
Qed.

Lemma map_outer_loop (kt vt : DataType) (suf : list Scalar) :
  (forall row, In row suf -> exists entries, row = SMap entries) ->
  forall pre acc,
    for_each (map_outer_body (mkColumn (TMap kt vt) (pre ++ suf)))
             (seq (List.length pre) (List.length suf)) acc
    = Ok (fst acc ++ flat_map (row_key_objects kt) suf,
          snd acc ++ flat_map (row_value_objects vt) suf).
Proof.
  induction suf as [|row rest IH]; intros Hrows pre acc; simpl.
  - rewrite !app_nil_r. destruct acc; reflexivity.
  - destruct (Hrows row (or_introl eq_refl)) as [entries ->].
    unfold map_outer_body at 1, ChunkedArray_getitem. simpl ctype. simpl cvalues.
    rewrite app_nth2 by lia. rewrite Nat.sub_diag. simpl.
    pose proof (map_inner_loop kt vt entries [] acc) as Hinner. simpl in Hinner.
    rewrite Hinner. clear Hinner. simpl.
    replace (pre ++ SMap entries :: rest) with ((pre ++ [SMap entries]) ++ rest)
      by (rewrite <- app_assoc; reflexivity).
    replace (S (List.length pre)) with (List.length (pre ++ [SMap entries]))
      by (rewrite length_app; simpl; lia).
    rewrite IH by (intros r Hr; apply Hrows; right; exact Hr).
    simpl. unfold row_key_objects, row_value_objects. simpl.
    rewrite !map_map, <- !app_assoc. reflexivity.
Qed.

Lemma pa_array_values (objs : list PyObject) :
  cvalues (pa_array objs) = map py_scalar_value objs.
Proof. destruct objs as [|[|ty v] rest]; reflexivity. Qed.

Lemma key_objects_values (kt : DataType) (rows : list Scalar) :
  map py_scalar_value (flat_map (row_key_objects kt) rows) = flat_map map_keys rows.
Proof.
  induction rows as [|row rest IH]; simpl; [reflexivity|].
  rewrite map_app, IH. unfold row_key_objects. rewrite map_map. simpl.
  rewrite map_id. reflexivity.
Qed.

Lemma value_objects_values (vt : DataType) (rows : list Scalar) :
  map py_scalar_value (flat_map (row_value_objects vt) rows) = flat_map map_values rows.
Proof.
  induction rows as [|row rest IH]; simpl; [reflexivity|].
  rewrite map_app, IH. unfold row_value_objects. rewrite map_map. simpl.
  rewrite map_id. reflexivity.
Qed.

Lemma map_keys_count (rows : list Scalar) :
  List.length (flat_map map_keys rows) = list_sum (map entry_count rows).
Proof.
  induction rows as [|row rest IH]; simpl; [reflexivity|].
  rewrite length_app, IH. destruct row; simpl; try reflexivity.
  rewrite length_map. reflexivity.
Qed.

Lemma map_values_count (rows : list Scalar) :
  List.length (flat_map map_values rows) = list_sum (map entry_count rows).
Proof.
  induction rows as [|row rest IH]; simpl; [reflexivity|].
  rewrite length_app, IH. destruct row; simpl; try reflexivity.
  rewrite length_map. reflexivity.
Qed.

Lemma map_names_differ (prefix : string) :
  String.eqb (prefix ++ "keys") (prefix ++ "values") = false.
Proof.
  apply String.eqb_neq. intros H. apply append_cancel_l in H. discriminate.
Qed.

Lemma _flatten_map_field_eq :
  forall (t : Table) (field : Field) (composite_names : bool)
         (column : Column) (kt vt : DataType),
    Table_column t (fst field) = Ok column ->
    ctype column = TMap kt vt ->
    (forall row, In row (cvalues column) -> exists entries, row = SMap entries) ->
    exists keys values,
      _flatten_map_field t field composite_names
      = Ok [(subfield_name (fst field) composite_names "keys", keys);
            (subfield_name (fst field) composite_names "values", values)]
      /\ cvalues keys = flat_map map_keys (cvalues column)
      /\ cvalues values = flat_map map_values (cvalues column)
      /\ len keys = list_sum (map entry_count (cvalues column))
      /\ len values = len keys.
Proof.
  intros t field cn [ty rows] kt vt Hc Hty Hrows. simpl in Hty, Hrows. subst ty.
  unfold _flatten_map_field. rewrite Hc. simpl bind.
  pose proof (map_outer_loop kt vt rows Hrows [] ([], [])) as Hloop. simpl in Hloop.
  unfold len at 1. simpl cvalues. rewrite Hloop. simpl bind. cbv zeta. simpl fst. simpl snd.
  exists (pa_array (flat_map (row_key_objects kt) rows)),
         (pa_array (flat_map (row_value_objects vt) rows)).
  split; [|split; [|split; [|split]]].
  - f_equal. unfold dict_zip, dict_update, subfield_name. simpl.
    destruct cn.
    + rewrite map_names_differ, !string_append_assoc. reflexivity.
    + reflexivity.
  - rewrite pa_array_values. apply key_objects_values.
  - rewrite pa_array_values. apply value_objects_values.
  - unfold len. rewrite pa_array_values, key_objects_values. apply map_keys_count.
  - unfold len. rewrite !pa_array_values, key_objects_values, value_objects_values.
    rewrite map_keys_count, map_values_count. reflexivity.
Qed.

(** X2.  For a map column none of whose rows is null, the map pass
    returns exactly two columns, named [keys] and [values] with the
    parent prefix under composite naming.  The keys column is the
    concatenation, row after row and entry after entry in stored
    order, of the rows' keys, the values column that of the rows'
    values; both have as many cells as the rows have entries in
    total. *)
Theorem map_field_expanded :
  forall (t : Table) (field : Field) (composite_names : bool)
         (column : Column) (kt vt : DataType),
    Table_column t (fst field) = Ok column ->
    ctype column = TMap kt vt ->
    (forall row, In row (cvalues column) -> exists entries, row = SMap entries) ->
    exists keys values,
      _flatten_map_field t field composite_names
      = Ok [(subfield_name (fst field) composite_names "keys", keys);
            (subfield_name (fst field) composite_names "values", values)]
      /\ cvalues keys = flat_map map_keys (cvalues column)
      /\ cvalues values = flat_map map_values (cvalues column)
      /\ len keys = list_sum (map entry_count (cvalues column))
      /\ len values = len keys.
Proof.
  intros t field cn column kt vt Hc Hty Hrows.
  exact (_flatten_map_field_eq t field cn column kt vt Hc Hty Hrows).
Qed.

Lemma map_field_expanded_witness :
  exists keys values,
    _flatten_map_field TestData.map_table
                       ("map_array", TMap (TPrim string_) (TPrim int64)) true
    = Ok [("map_array.keys", keys); ("map_array.values", values)]
    /\ cvalues keys = [SStr "x"; SStr "y"; SStr "a"; SStr "b"]
    /\ cvalues values = [SInt 1; SInt 0; SInt 2; SInt 45]
    /\ len keys = 4
    /\ len values = len keys.
Proof.
  apply (map_field_expanded TestData.map_table
           ("map_array", TMap (TPrim string_) (TPrim int64)) true
           (mkColumn (TMap (TPrim string_) (TPrim int64))
              [SMap [(SStr "x", SInt 1); (SStr "y", SInt 0)];
               SMap [(SStr "a", SInt 2); (SStr "b", SInt 45)]])
           (TPrim string_) (TPrim int64) eq_refl eq_refl).
  simpl. intros row [<- | [<- | []]]; eexists; reflexivity.
Defined.

(* ================================================================== *)
(** ** Kept struct and map columns *)

Lemma append_not_self (p s : string) : p = (p ++ s)%string -> s = "".
Proof.
  induction p as [|c p IH]; simpl; intros H; [symmetry; exact H|].
  injection H as H. apply IH. exact H.
Qed.

Lemma composite_name_not_parent (parent sub : string) :
  subfield_name parent true sub <> parent.
Proof.
  unfold subfield_name. intros H. symmetry in H.
  apply append_not_self in H. discriminate.
Qed.

Lemma subfield_name_not_parent (parent : string) (cn : bool) (subs : list string) :
  cn = true \/ ~ In parent subs ->
  ~ In parent (map (subfield_name parent cn) subs).
Proof.
  intros Hcond Hin. apply in_map_iff in Hin. destruct Hin as [sub [Heq Hin]].
  destruct Hcond as [-> | Hn].
  - exact (composite_name_not_parent _ _ Heq).
  - unfold subfield_name in Heq. destruct cn.
    + exact (composite_name_not_parent _ _ Heq).
    + subst sub. contradiction.
Qed.

Lemma build_field_map (t : Table) (field : Field) (column : Column)
  (cn keep : bool) (d0 sub : Dict) :
  is_map (snd field) = true ->
  Table_column t (fst field) = Ok column ->
  _flatten_map_field t field cn = Ok sub ->
  build_field t cn keep d0 field
  = Ok (dict_update (if keep then dict_set d0 (fst field) column else d0) sub).
Proof.
  intros Hm Hc Hf. unfold build_field. rewrite Hm, Hf, Hc.
  destruct (snd field); try discriminate. simpl.
  destruct keep; reflexivity.
Qed.

(** X3.  With [keep_nested_columns = true] the step of a struct field
    and the step of a map field without null rows leave the original
    column in the mapping under the field's name, next to the
    flattened columns, provided no flattened column takes the field's
    own name; under composite naming none does. *)
Theorem kept_struct_and_map_columns :
  forall (t : Table) (field : Field) (column : Column)
         (composite_names : bool) (d0 : Dict),
    Table_column t (fst field) = Ok column ->
    ctype column = snd field ->
    (forall fs,
        snd field = TStruct fs ->
        composite_names = true \/ ~ In (fst field) (map fst fs) ->
        exists d',
          build_field t composite_names true d0 field = Ok d'
          /\ dict_get d' (fst field) = Some column
          /\ forall pre sub post,
               fs = pre ++ sub :: post ->
               ~ In (fst sub) (map fst post) ->
               dict_get d' (subfield_name (fst field) composite_names (fst sub))
               = Some (subfield_column column (List.length pre) sub))
    /\ (forall kt vt,
          snd field = TMap kt vt ->
          (forall row, In row (cvalues column) -> exists entries, row = SMap entries) ->
          composite_names = true \/ ~ In (fst field) ["keys"; "values"] ->
          exists d' keys values,
            build_field t composite_names true d0 field = Ok d'
            /\ dict_get d' (fst field) = Some column
            /\ dict_get d' (subfield_name (fst field) composite_names "keys") = Some keys
            /\ dict_get d' (subfield_name (fst field) composite_names "values")
               = Some values
            /\ cvalues keys = flat_map map_keys (cvalues column)
            /\ cvalues values = flat_map map_values (cvalues column)).
Proof.
  intros t field column cn d0 Hc Hty. split.
  - intros fs Hf Hcond. rewrite Hf in Hty.
    pose proof (_flatten_struct_field_eq t field cn column fs Hf Hty Hc) as Hd.
    assert (is_struct (snd field) = true) as Hs by (rewrite Hf; reflexivity).
    rewrite (build_field_struct t field column cn true d0 _ Hs Hc Hd).
    eexists. split; [reflexivity|]. split.
    + rewrite dict_update_get_other; [apply dict_get_set_same|].
      fold (dict_keys (dict_update [] (struct_items (fst field) cn column 0 fs))).
      rewrite dict_keys_update_In, struct_items_keys. intros [[] | Hin].
      rewrite <- (map_map fst (subfield_name (fst field) cn)) in Hin.
      exact (subfield_name_not_parent _ _ _ Hcond Hin).
    + intros pre sub post -> Hn. apply dict_update_get_sub.
      * apply dict_keys_update_NoDup. constructor.
      * apply struct_items_get_last. exact Hn.
  - intros kt vt Hf Hrows Hcond. rewrite Hf in Hty.
    destruct (_flatten_map_field_eq t field cn column kt vt Hc Hty Hrows)
      as [keys [values [He [Hk [Hv _]]]]].
    assert (is_map (snd field) = true) as Hm by (rewrite Hf; reflexivity).
    rewrite (build_field_map t field column cn true d0 _ Hm Hc He).
    assert (subfield_name (fst field) cn "keys" <> subfield_name (fst field) cn "values")
      as Hne by (intros H; apply subfield_name_inj in H; discriminate).
    assert (NoDup (dict_keys [(subfield_name (fst field) cn "keys", keys);
                              (subfield_name (fst field) cn "values", values)])) as Hnd.
    { simpl. constructor; [simpl; intuition congruence|].
      constructor; [simpl; tauto | constructor]. }
    exists (dict_update (dict_set d0 (fst field) column)
              [(subfield_name (fst field) cn "keys", keys);
               (subfield_name (fst field) cn "values", values)]), keys, values.
    split; [reflexivity|]. split; [|split; [|split; [|split]]]; try assumption.
    + rewrite dict_update_get_other; [apply dict_get_set_same|].
      change (~ In (fst field) (map (subfield_name (fst field) cn) ["keys"; "values"])).
      apply subfield_name_not_parent. exact Hcond.
    + apply dict_update_get_sub; [exact Hnd|]. simpl. rewrite String.eqb_refl. reflexivity.
    + apply dict_update_get_sub; [exact Hnd|]. simpl.
      apply String.eqb_neq in Hne. rewrite Hne, String.eqb_refl. reflexivity.
Qed.

Lemma kept_struct_and_map_columns_witness :
  exists d',
    build_field Inputs.person_table true true [] ("person", TestData.person_type) = Ok d'
    /\ dict_get d' "person" = Some TestData.person_column
    /\ forall pre sub post,
         [("name", TPrim string_); ("age", TPrim int64)] = pre ++ sub :: post ->
         ~ In (fst sub) (map fst post) ->
         dict_get d' (subfield_name "person" true (fst sub))
         = Some (subfield_column TestData.person_column (List.length pre) sub).
Proof.
  destruct (kept_struct_and_map_columns Inputs.person_table
              ("person", TestData.person_type) TestData.person_column true []
              eq_refl eq_refl) as [H _].
  apply (H [("name", TPrim string_); ("age", TPrim int64)] eq_refl).
  left. reflexivity.
Defined.

(* ================================================================== *)
(** ** The collision rule of a pass *)

Lemma dict_zip_keys (names : list string) (columns : list Column) (x : string) :
  In x (dict_keys (dict_zip names columns)) -> In x names.
Proof.
  unfold dict_zip. rewrite dict_keys_update_In. intros [[] | H].
  apply in_map_iff in H. destruct H as [[n c] [<- H]]. simpl.
  eapply in_combine_l. exact H.
Qed.

Lemma dict_update_get_frame (d sub : Dict) (name : string) :
  ~ In name (dict_keys sub) -> dict_get (dict_update d sub) name = dict_get d name.
Proof. intros H. apply dict_update_get_other. exact H. Qed.

(** A step leaves alone every name it does not write under. *)
Lemma build_field_frame (t : Table) (cn keep : bool) (d d' : Dict) (field : Field)
  (name : string) :
  build_field t cn keep d field = Ok d' ->
  ~ In name (output_names cn keep field) ->
  dict_get d' name = dict_get d name.
Proof.
  unfold build_field, output_names. intros H Hn.
  apply bind_Ok_inv in H. destruct H as [d1 [H1 H]].
  assert (dict_get d1 name = dict_get d name) as Hd1.
  { destruct (negb (is_nested (snd field)) || keep).
    - apply bind_Ok_inv in H1. destruct H1 as [c [_ H1]]. injection H1 as <-.
      apply dict_get_set_other. intros ->. apply Hn. left. reflexivity.
    - injection H1 as <-. reflexivity. }
  rewrite <- Hd1.
  assert (forall l, ~ In name (l ++ []) -> ~ In name l) as Hnil
      by (intros l Hl Hin; apply Hl; rewrite app_nil_r; exact Hin).
  destruct (is_struct (snd field)).
  { apply bind_Ok_inv in H. destruct H as [sub [Hs H]]. injection H as <-.
    apply dict_update_get_frame. intros Hin. apply Hn. apply in_or_app. right.
    unfold _flatten_struct_field in Hs.
    apply bind_Ok_inv in Hs. destruct Hs as [c [_ Hs]]. injection Hs as <-.
    eapply dict_zip_keys. exact Hin. }
  destruct (is_list (snd field)).
  { apply bind_Ok_inv in H. destruct H as [sub [Hs H]]. injection H as <-.
    apply dict_update_get_frame. intros Hin. apply Hn. apply in_or_app. right.
    unfold _flatten_list_field in Hs.
    apply bind_Ok_inv in Hs. destruct Hs as [c [_ Hs]]. injection Hs as <-.
    eapply dict_zip_keys. exact Hin. }
  destruct (is_map (snd field)).
  { apply bind_Ok_inv in H. destruct H as [sub [Hs H]]. injection H as <-.
    apply dict_update_get_frame. intros Hin. apply Hn. apply in_or_app. right.
    unfold _flatten_map_field in Hs.
    apply bind_Ok_inv in Hs. destruct Hs as [c [_ Hs]].
    apply bind_Ok_inv in Hs. destruct Hs as [acc [_ Hs]]. injection Hs as <-.
    eapply dict_zip_keys. exact Hin. }
  injection H as <-. reflexivity.
Qed.

Lemma build_fields_frame (t : Table) (cn keep : bool) (fields : list Field) (name : string) :
  (forall field, In field fields -> ~ In name (output_names cn keep field)) ->
  forall d d',
    for_each (build_field t cn keep) fields d = Ok d' ->
    dict_get d' name = dict_get d name.
Proof.
  induction fields as [|field rest IH]; intros Hn d d'; simpl.
  - intros H. injection H as <-. reflexivity.
  - intros H. apply bind_Ok_inv in H. destruct H as [d1 [H1 H]].
    rewrite (IH (fun f Hf => Hn f (or_intror Hf)) d1 d' H).
    eapply build_field_frame; [exact H1|]. apply Hn. left. reflexivity.
Qed.

(** X4.  Collision rule.  In the mapping a pass builds, what a
    field's step has put under a name stays there unless a later field
    of the schema writes under that name; names are not checked for
    collisions, and on the table with two struct columns of the same
    sub-field name the later column's values are the ones that
    remain. *)
Theorem later_writes_win :
  forall (t : Table) (composite_names keep : bool)
         (pre post : list Field) (field : Field) (d_before d_step d : Dict)
         (name : string),
    schema t = pre ++ field :: post ->
    for_each (build_field t composite_names keep) pre [] = Ok d_before ->
    build_field t composite_names keep d_before field = Ok d_step ->
    _build_flattened_arrays_dict t composite_names keep = Ok d ->
    (forall later, In later post -> ~ In name (output_names composite_names keep later)) ->
    dict_get d name = dict_get d_step name.
Proof.
  intros t cn keep pre post field d_before d_step d name Hs Hpre Hstep Hd Hn.
  unfold _build_flattened_arrays_dict in Hd. rewrite Hs, for_each_app, Hpre in Hd.
  simpl in Hd. rewrite Hstep in Hd. simpl in Hd.
  eapply build_fields_frame; eassumption.
Qed.

Lemma later_writes_win_witness :
  dict_get [("x", mkColumn (TPrim int64) [SInt 1; SInt 2]); ("id", TestData.id_column)] "x"
  = dict_get [("x", mkColumn (TPrim int64) [SInt 1; SInt 2])] "x".
Proof.
  apply (later_writes_win Collisions.struct_then_id_table false false
           [] [("id", TPrim int64)] ("a", Collisions.x_type)
           []
           [("x", mkColumn (TPrim int64) [SInt 1; SInt 2])]
           [("x", mkColumn (TPrim int64) [SInt 1; SInt 2]); ("id", TestData.id_column)]
           "x" eq_refl eq_refl eq_refl eq_refl).
  intros later [<- | []]. simpl. intros [H | []]. discriminate H.
Defined.

(** The pass at the table with two struct columns: one column [x],
    holding the values of the second struct column. *)
Example two_structs_pass :
  _flatten_nested_columns Collisions.two_structs_table false false
  = Ok [("x", mkColumn (TPrim int64) [SInt 3; SInt 4])].
Proof. reflexivity. Qed.

(* ================================================================== *)
(** ** The repository's tests, replayed on the model *)

Example test_flatten_table_with_composite_keys :
  fst (flatten_all_columns 2 (mkFlattener (Some TestData.composite_keys_table) [])
                           true true false)
  = Returned
      [("id", mkColumn (TPrim int64) [SInt 1; SInt 2]);
       ("person.name", mkColumn (TPrim string_) [SStr "Alice"; SStr "Bob"]);
       ("person.age", mkColumn (TPrim int64) [SInt 30; SInt 25]);
       ("complicated_person.student.name",
        mkColumn (TPrim string_) [SStr "Alice"; SStr "Bob"]);
       ("complicated_person.student.age", mkColumn (TPrim int64) [SInt 30; SInt 25]);
       ("simple_list", mkColumn (TPrim int64) [SInt 1; SInt 5])].
Proof. reflexivity. Qed.

Example test_flatten_structs_only :
  fst (flatten_struct_columns 1
         (mkFlattener (Some [("simple_list", TestData.simple_list_column);
                             ("person", TestData.person_column)]) [])
         true)
  = Returned
      [("simple_list", TestData.simple_list_column);
       ("person.name", mkColumn (TPrim string_) [SStr "Alice"; SStr "Bob"]);
       ("person.age", mkColumn (TPrim int64) [SInt 30; SInt 25])].
Proof. reflexivity. Qed.

Example test_flatten_list_column :
  fst (flatten_all_columns 1 (mkFlattener (Some Inputs.simple_list_table) [])
                           true true false)
  = Returned [("simple_list", mkColumn (TPrim int64) [SInt 1; SInt 5])].
Proof. reflexivity. Qed.

Example test_safe_conversion_to_pandas :
  match fst (flatten_all_columns 1 (mkFlattener (Some TestData.list_with_none_table) [])
                                 true false false) with
  | Returned flat_table =>
      to_pandas_safe flat_table
      = Ok [("list_with_none",
             mkSeries Int64Dtype [PdValue (SInt 1); PdNA; PdValue (SInt 5)])]
  | _ => False
  end.
Proof. reflexivity. Qed.

Example test_flatten_map :
  fst (flatten_all_columns 1 (mkFlattener (Some TestData.map_table) []) true true false)
  = Returned
      [("map_array.keys",
        mkColumn (TPrim string_) [SStr "x"; SStr "y"; SStr "a"; SStr "b"]);
       ("map_array.values",
        mkColumn (TPrim int64) [SInt 1; SInt 0; SInt 2; SInt 45])].
Proof. reflexivity. Qed.

(** Large lists, fixed-size lists and unions are nested without being
    struct, list or map. *)
Example other_kinds :
  forall e n fs,
    nested_of_other_kind (TLargeList e) = true
    /\ nested_of_other_kind (TFixedSizeList e n) = true
    /\ nested_of_other_kind (TUnion fs) = true.
Proof. intros e n fs. repeat split. Qed.

(* ================================================================== *)
(** ** The loop of [flatten_struct_columns] *)

Lemma struct_depth_field (fs : list Field) (f : Field) :
  In f fs -> S (struct_depth (snd f)) <= struct_depth (TStruct fs).
Proof.
  induction fs as [|g rest IH]; intros Hin; [destruct Hin|].
  simpl in *. destruct Hin as [-> | Hin].
  - lia.
  - specialize (IH Hin). lia.
Qed.

Lemma table_struct_depth_app (t1 t2 : Table) :
  table_struct_depth (t1 ++ t2)
  = Nat.max (table_struct_depth t1) (table_struct_depth t2).
Proof. unfold table_struct_depth. rewrite map_app, list_max_app. reflexivity. Qed.

Lemma struct_children_depth (n : nat) (name : string) (c : Column) (fs : list Field) :
  ctype c = TStruct fs ->
  struct_depth (ctype c) <= S n ->
  table_struct_depth
    (combine (map (fun f => (name ++ "." ++ fst f)%string) fs) (ChunkedArray_flatten c))
  <= n.
Proof.
  intros Hty Hd. unfold table_struct_depth. apply list_max_le. apply Forall_forall.
  intros x Hx. apply in_map_iff in Hx. destruct Hx as [[nm c'] [<- Hin]].
  apply in_combine_r in Hin. unfold ChunkedArray_flatten in Hin. rewrite Hty in Hin.
  apply in_map_iff in Hin. destruct Hin as [[k f] [<- Hin]]. simpl.
  apply in_combine_r in Hin. rewrite Hty in Hd.
  pose proof (struct_depth_field fs f Hin). lia.
Qed.

(** The generic struct flatten lowers the struct depth by one. *)
Lemma Table_flatten_depth (t : Table) :
  forall n, table_struct_depth t <= S n -> table_struct_depth (Table_flatten t) <= n.
Proof.
  induction t as [|[name c] rest IH]; intros n Hd; simpl.
  - unfold table_struct_depth. simpl. lia.
  - unfold table_struct_depth in Hd. simpl in Hd.
    fold (table_struct_depth rest) in Hd.
    rewrite table_struct_depth_app. apply Nat.max_lub; [|apply IH; lia].
    destruct (ctype c) as [| fs | | | | |] eqn:E;
      try (unfold table_struct_depth; simpl; rewrite E; simpl; lia).
    apply struct_children_depth; [exact E | rewrite E in *; lia].
Qed.

Lemma _has_struct_columns_depth (t : Table) :
  table_struct_depth t = 0 -> _has_struct_columns t = false.
Proof.
  intros H. unfold _has_struct_columns.
  destruct (existsb (fun field => is_struct (snd field)) (schema t)) eqn:E;
    [|reflexivity].
  apply existsb_exists in E. destruct E as [field [Hin Hs]].
  unfold schema in Hin. apply in_map_iff in Hin. destruct Hin as [[name c] [<- Hin]].
  simpl in Hs. exfalso.
  assert (struct_depth (ctype c) <= table_struct_depth t) as Hle.
  { unfold table_struct_depth. clear H Hs.
    induction t as [|nc rest IH]; [destruct Hin|].
    simpl. destruct Hin as [-> | Hin]; simpl; [lia|]. specialize (IH Hin). lia. }
  destruct (ctype c); simpl in *; try discriminate; lia.
Qed.

Lemma flatten_struct_loop_flat (fuel : nat) (r : bool) (t : Table) (lg : list LogRecord) :
  _has_struct_columns t = false ->
  flatten_struct_loop fuel r t lg = (Returned t, mkFlattener (Some t) lg).
Proof. intros H. destruct fuel; simpl; rewrite H; reflexivity. Qed.

Lemma flatten_struct_loop_returns (fuel : nat) (r : bool) :
  forall t lg,
    table_struct_depth t <= fuel ->
    exists t' lg',
      (forall extra,
          flatten_struct_loop (fuel + extra) r t lg
          = (Returned t', mkFlattener (Some t') lg'))
      /\ (r = true -> _has_struct_columns t' = false).
Proof.
  induction fuel as [|fuel IH]; intros t lg Hd.
  - exists t, lg. assert (_has_struct_columns t = false) as Hf
        by (apply _has_struct_columns_depth; lia).
    split; [|intros _; exact Hf]. intros extra. apply flatten_struct_loop_flat. exact Hf.
  - destruct (_has_struct_columns t) eqn:Es.
    + destruct r.
      * destruct (IH (Table_flatten t)
                    (lg ++ [LogInfoFlatteningStructs (List.length t)])
                    (Table_flatten_depth t fuel Hd)) as [t' [lg' [Hrun Hflat]]].
        exists t', lg'. split; [|exact Hflat].
        intros extra. simpl. rewrite Es. simpl. apply Hrun.
      * exists (Table_flatten t), (lg ++ [LogInfoFlatteningStructs (List.length t)]).
        split; [|discriminate]. intros extra. simpl. rewrite Es. reflexivity.
    + exists t, lg. split; [|intros _; exact Es].
      intros extra. apply flatten_struct_loop_flat. exact Es.
Qed.

(** X5.  [flatten_struct_columns] on a set table always returns: as
    many passes as the depth of struct nesting are enough, the engine's
    struct flatten never raises, and more passes change nothing.  The
    returned table is the held one.  With [recursive = true] it has no
    struct-typed field left, and a further call, recursive or not, is
    a no-op. *)
Theorem flatten_struct_columns_returns :
  forall (self : Flattener) (recursive : bool) (t : Table),
    _table self = Some t ->
    exists t' self',
      (forall extra,
          flatten_struct_columns (table_struct_depth t + extra) self recursive
          = (Returned t', self'))
      /\ _table self' = Some t'
      /\ (recursive = true ->
          _has_struct_columns t' = false
          /\ forall fuel again,
               flatten_struct_columns fuel self' again = (Returned t', self')).
Proof.
  intros self r t Ht.
  destruct (flatten_struct_loop_returns (table_struct_depth t) r t (log self)
              (Nat.le_refl _)) as [t' [lg' [Hrun Hflat]]].
  exists t', (mkFlattener (Some t') lg'). split; [|split].
  - intros extra. unfold flatten_struct_columns, _validate_table_set. rewrite Ht.
    apply Hrun.
  - reflexivity.
  - intros Hr. split; [exact (Hflat Hr)|]. intros fuel again.
    unfold flatten_struct_columns, _validate_table_set. simpl.
    apply flatten_struct_loop_flat. exact (Hflat Hr).
Qed.

Lemma flatten_struct_columns_returns_witness :
  exists t' self',
    (forall extra,
        flatten_struct_columns (2 + extra)
          (mkFlattener (Some TestData.composite_keys_table) []) true
        = (Returned t', self'))
    /\ _table self' = Some t'
    /\ (true = true ->
        _has_struct_columns t' = false
        /\ forall fuel again,
             flatten_struct_columns fuel self' again = (Returned t', self')).
Proof.
  apply (flatten_struct_columns_returns
           (mkFlattener (Some TestData.composite_keys_table) []) true
           TestData.composite_keys_table eq_refl).
Defined.

Lemma Table_flatten_keeps (t : Table) (name : string) (c : Column) :
  In (name, c) t -> is_struct (ctype c) = false -> In (name, c) (Table_flatten t).
Proof.
  intros Hin Hs. unfold Table_flatten. apply in_flat_map.
  exists (name, c). split; [exact Hin|]. simpl.
  destruct (ctype c); try discriminate; left; reflexivity.
Qed.

Lemma ChunkedArray_flatten_len (c : Column) :
  Forall (fun c' => len c' = len c) (ChunkedArray_flatten c).
Proof.
  unfold ChunkedArray_flatten.
  destruct (ctype c); try (constructor; [reflexivity | constructor]).
  apply Forall_forall. intros c' Hin. apply in_map_iff in Hin.
  destruct Hin as [kf [<- _]]. unfold len. simpl. apply length_map.
Qed.

Lemma Table_flatten_row_count (rows : nat) (t : Table) :
  row_count_is rows t -> row_count_is rows (Table_flatten t).
Proof.
  unfold row_count_is. intros H. apply Forall_forall. intros [name c'] Hin.
  unfold Table_flatten in Hin. apply in_flat_map in Hin.
  destruct Hin as [[pname c] [Hp Hin]]. simpl in *.
  pose proof (proj1 (Forall_forall _ _) H _ Hp) as Hc. simpl in Hc.
  destruct (ctype c);
    try (destruct Hin as [Heq | []]; injection Heq as <- <-; exact Hc).
  apply in_combine_r in Hin.
  pose proof (proj1 (Forall_forall _ _) (ChunkedArray_flatten_len c) _ Hin) as Hl.
  simpl in Hl. rewrite Hl. exact Hc.
Qed.

Lemma flatten_struct_loop_invariant (P : Table -> Prop) :
  (forall t, P t -> P (Table_flatten t)) ->
  forall fuel r t lg t' self',
    P t ->
    flatten_struct_loop fuel r t lg = (Returned t', self') ->
    P t'.
Proof.
  intros Hstep fuel r. induction fuel as [|fuel IH]; intros t lg t' self' Ht; simpl;
    destruct (_has_struct_columns t).
  - discriminate.
  - intros H. injection H as <- _. exact Ht.
  - destruct r; simpl.
    + apply IH. apply Hstep. exact Ht.
    + intros H. injection H as <- _. apply Hstep. exact Ht.
  - intros H. injection H as <- _. exact Ht.
Qed.

(** X6.  [flatten_struct_columns] touches struct columns only: every
    column of the held table that is not struct-typed (a list or map
    column, whatever it holds inside, included) is in the returned
    table under its name with its cells unchanged, and when all
    columns of the held table have one number of rows, all columns of
    the returned table have that number of rows. *)
Theorem flatten_struct_columns_keeps_others :
  forall (fuel : nat) (self self' : Flattener) (recursive : bool) (t t' : Table),
    _table self = Some t ->
    flatten_struct_columns fuel self recursive = (Returned t', self') ->
    (forall name c,
        In (name, c) t -> is_struct (ctype c) = false -> In (name, c) t')
    /\ (forall rows, row_count_is rows t -> row_count_is rows t').
Proof.
  intros fuel self self' r t t' Ht H.
  unfold flatten_struct_columns, _validate_table_set in H. rewrite Ht in H.
  split.
  - intros name c Hin Hs. revert H.
    apply (flatten_struct_loop_invariant
             (fun x => In (name, c) x)); [|exact Hin].
    intros x Hx. apply Table_flatten_keeps; assumption.
  - intros rows Hrows. revert H.
    apply (flatten_struct_loop_invariant (row_count_is rows)); [|exact Hrows].
    intros x Hx. apply Table_flatten_row_count. exact Hx.
Qed.

Lemma flatten_struct_columns_keeps_others_witness :
  let t' := Table_flatten (Table_flatten TestData.composite_keys_table) in
  In ("simple_list", TestData.simple_list_column) t' /\ row_count_is 2 t'.
Proof.
  cbv zeta.
  destruct (flatten_struct_columns_keeps_others 2
              (mkFlattener (Some TestData.composite_keys_table) [])
              (snd (flatten_struct_columns 2
                      (mkFlattener (Some TestData.composite_keys_table) []) true))
              true TestData.composite_keys_table
              (Table_flatten (Table_flatten TestData.composite_keys_table))
              eq_refl eq_refl) as [Hk Hr].
  split.
  - apply Hk; [|reflexivity]. simpl. tauto.
  - apply Hr. repeat constructor.
Defined.

(* ================================================================== *)
(** ** What a successful pass guarantees *)

Lemma pa_table_Ok (d : Dict) (t : Table) :
  pa_table d = Ok t -> t = d /\ exists rows, row_count_is rows t.
Proof.
  destruct d as [|[k c0] rest]; simpl.
  - intros H. injection H as <-. split; [reflexivity|]. exists 0. constructor.
  - destruct (forallb (fun nc => Nat.eqb (len (snd nc)) (len c0)) rest) eqn:E;
      [|discriminate].
    intros H. injection H as <-. split; [reflexivity|]. exists (len c0).
    constructor; [reflexivity|].
    apply Forall_forall. intros nc Hin.
    rewrite forallb_forall in E. apply Nat.eqb_eq. apply E. exact Hin.
Qed.

Lemma build_field_NoDup (t : Table) (cn keep : bool) (d d' : Dict) (field : Field) :
  NoDup (dict_keys d) -> build_field t cn keep d field = Ok d' -> NoDup (dict_keys d').
Proof.
  intros Hd H. unfold build_field in H.
  apply bind_Ok_inv in H. destruct H as [d1 [H1 H]].
  assert (NoDup (dict_keys d1)) as Hd1.
  { destruct (negb (is_nested (snd field)) || keep).
    - apply bind_Ok_inv in H1. destruct H1 as [c [_ H1]]. injection H1 as <-.
      apply dict_keys_set_NoDup. exact Hd.
    - injection H1 as <-. exact Hd. }
  destruct (is_struct (snd field)).
  { apply bind_Ok_inv in H. destruct H as [sub [_ H]]. injection H as <-.
    apply dict_keys_update_NoDup. exact Hd1. }
  destruct (is_list (snd field)).
  { apply bind_Ok_inv in H. destruct H as [sub [_ H]]. injection H as <-.
    apply dict_keys_update_NoDup. exact Hd1. }
  destruct (is_map (snd field)).
  { apply bind_Ok_inv in H. destruct H as [sub [_ H]]. injection H as <-.
    apply dict_keys_update_NoDup. exact Hd1. }
  injection H as <-. exact Hd1.
Qed.

Lemma _flatten_nested_columns_well_formed (t t' : Table) (cn keep : bool) :
  _flatten_nested_columns t cn keep = Ok t' ->
  NoDup (map fst t') /\ exists rows, row_count_is rows t'.
Proof.
  intros H. unfold _flatten_nested_columns in H.
  apply bind_Ok_inv in H. destruct H as [d [Hb Hp]].
  apply pa_table_Ok in Hp. destruct Hp as [-> Hrows]. split; [|exact Hrows].
  unfold _build_flattened_arrays_dict in Hb. revert Hb.
  apply (for_each_invariant _ _ (fun d0 : Dict => NoDup (dict_keys d0))); [|constructor].
  intros s field s' _ Hs Hstep. eapply build_field_NoDup; eassumption.
Qed.

Lemma flatten_all_loop_after_pass (P : Table -> Prop) (cn keep : bool) :
  (forall x y, _flatten_nested_columns x cn keep = Ok y -> P y) ->
  forall fuel r t lg t' self',
    P t \/ _has_nested_columns t = true ->
    flatten_all_loop fuel r cn keep t lg = (Returned t', self') ->
    P t'.
Proof.
  intros Hpass fuel r. induction fuel as [|fuel IH]; intros t lg t' self' Ht; simpl;
    destruct (_has_nested_columns t) eqn:En.
  - discriminate.
  - intros H. injection H as <- _. destruct Ht as [Ht | Ht]; [exact Ht | discriminate].
  - destruct (_flatten_nested_columns t cn keep) as [t1|e] eqn:E; [|discriminate].
    destruct r; simpl.
    + apply IH. left. eapply Hpass. exact E.
    + intros H. injection H as <- _. eapply Hpass. exact E.
  - intros H. injection H as <- _. destruct Ht as [Ht | Ht]; [exact Ht | discriminate].
Qed.

(** X7.  A table returned by [flatten_all_columns] after at least one
    pass is well formed: its column names are pairwise distinct (the
    output goes through a dictionary keyed by name) and all its
    columns have one number of rows. *)
Theorem flattened_table_well_formed :
  forall (fuel : nat) (self self' : Flattener) (recursive composite_names keep : bool)
         (t t' : Table),
    _table self = Some t ->
    _has_nested_columns t = true ->
    flatten_all_columns fuel self recursive composite_names keep = (Returned t', self') ->
    NoDup (map fst t') /\ exists rows, row_count_is rows t'.
Proof.
  intros fuel self self' r cn keep t t' Ht Hn H.
  unfold flatten_all_columns, _validate_table_set in H. rewrite Ht in H.
  revert H.
  apply (flatten_all_loop_after_pass
           (fun x => NoDup (map fst x) /\ exists rows, row_count_is rows x) cn keep).
  - intros x y. apply _flatten_nested_columns_well_formed.
  - right. exact Hn.
Qed.

Lemma flattened_table_well_formed_witness :
  let t' := [("x", mkColumn (TPrim int64) [SInt 3; SInt 4])] in
  NoDup (map fst t') /\ exists rows, row_count_is rows t'.
Proof.
  cbv zeta.
  apply (flattened_table_well_formed 1
           (mkFlattener (Some Collisions.two_structs_table) [])
           (snd (flatten_all_columns 1 (mkFlattener (Some Collisions.two_structs_table) [])
                                     true false false))
           true false false Collisions.two_structs_table
           [("x", mkColumn (TPrim int64) [SInt 3; SInt 4])]
           eq_refl eq_refl eq_refl).
Defined.

Lemma for_each_Ok_steps (A S : Type) (body : S -> A -> result S) (xs : list A) :
  forall s s',
    for_each body xs s = Ok s' ->
    forall x, In x xs -> exists s1 s2, body s1 x = Ok s2.
Proof.
  induction xs as [|y rest IH]; intros s s' H x Hin; [destruct Hin|].
  simpl in H. apply bind_Ok_inv in H. destruct H as [s1 [H1 H]].
  destruct Hin as [-> | Hin].
  - exists s, s1. exact H1.
  - eapply IH; eassumption.
Qed.

Lemma build_field_Ok_column (t : Table) (cn keep : bool) (d d' : Dict) (field : Field) :
  accesses_column keep (snd field) = true ->
  build_field t cn keep d field = Ok d' ->
  exists c, Table_column t (fst field) = Ok c.
Proof.
  unfold accesses_column, build_field. intros Ha H.
  apply bind_Ok_inv in H. destruct H as [d1 [H1 H]].
  destruct (negb (is_nested (snd field)) || keep).
  { apply bind_Ok_inv in H1. destruct H1 as [c [Hc _]]. eauto. }
  simpl in Ha.
  destruct (is_struct (snd field)).
  { apply bind_Ok_inv in H. destruct H as [sub [Hs _]].
    unfold _flatten_struct_field in Hs.
    apply bind_Ok_inv in Hs. destruct Hs as [c [Hc _]]. eauto. }
  destruct (is_list (snd field)).
  { apply bind_Ok_inv in H. destruct H as [sub [Hs _]].
    unfold _flatten_list_field in Hs.
    apply bind_Ok_inv in Hs. destruct Hs as [c [Hc _]]. eauto. }
  destruct (is_map (snd field)); [|discriminate].
  apply bind_Ok_inv in H. destruct H as [sub [Hs _]].
  unfold _flatten_map_field in Hs.
  apply bind_Ok_inv in Hs. destruct Hs as [c [Hc _]]. eauto.
Qed.

Lemma Table_column_Ok_count (t : Table) (name : string) (c : Column) :
  Table_column t name = Ok c -> name_count t name = 1.
Proof.
  intros H. destruct (Table_column_filter _ _ _ H) as [n Hf].
  unfold name_count. rewrite Hf. reflexivity.
Qed.

Lemma Table_column_count_raises (t : Table) (name : string) :
  name_count t name <> 1 -> Table_column t name = Raise KeyError.
Proof.
  unfold name_count, Table_column.
  destruct (filter _ t) as [|[n c] [|p rest]]; simpl; intros H; try reflexivity.
  congruence.
Qed.

(** X8.  A pass succeeds only on a table in which every column it
    reads is the only column of its name: a table with two columns of
    one name, one of them read by the pass, cannot be flattened.  The
    first field of the schema, when its column is read and its name
    occurs again, makes the pass raise [KeyError] before anything is
    built. *)
Theorem duplicate_column_names_rejected :
  forall (t : Table) (composite_names keep : bool),
    (forall t',
        _flatten_nested_columns t composite_names keep = Ok t' ->
        forall field,
          In field (schema t) ->
          accesses_column keep (snd field) = true ->
          name_count t (fst field) = 1)
    /\ (forall name c rest,
          t = (name, c) :: rest ->
          accesses_column keep (ctype c) = true ->
          In name (map fst rest) ->
          _flatten_nested_columns t composite_names keep = Raise KeyError).
Proof.
  intros t cn keep. split.
  - intros t' H field Hin Ha. unfold _flatten_nested_columns in H.
    apply bind_Ok_inv in H. destruct H as [d [Hb _]].
    unfold _build_flattened_arrays_dict in Hb.
    destruct (for_each_Ok_steps _ _ _ _ _ _ Hb field Hin) as [s1 [s2 Hstep]].
    destruct (build_field_Ok_column _ _ _ _ _ _ Ha Hstep) as [c Hc].
    eapply Table_column_Ok_count. exact Hc.
  - intros name c rest -> Ha Hin.
    assert (Table_column ((name, c) :: rest) name = Raise KeyError) as Hk.
    { apply Table_column_count_raises. unfold name_count. simpl.
      rewrite String.eqb_refl. simpl.
      apply in_map_iff in Hin. destruct Hin as [[n c'] [Hn Hin]]. simpl in Hn. subst n.
      assert (In (name, c') (filter (fun nc => String.eqb (fst nc) name) rest)) as Hf
          by (apply filter_In; split; [exact Hin | apply String.eqb_refl]).
      destruct (filter (fun nc => String.eqb (fst nc) name) rest); [destruct Hf|].
      simpl. discriminate. }
    unfold _flatten_nested_columns, _build_flattened_arrays_dict. simpl.
    unfold build_field at 1. simpl fst. simpl snd.
    unfold accesses_column in Ha.
    unfold _flatten_struct_field, _flatten_list_field, _flatten_map_field. simpl fst.
    rewrite Hk. simpl.
    destruct (negb (is_nested (ctype c)) || keep); [reflexivity|]. simpl in Ha. simpl.
    destruct (is_struct (ctype c)); [reflexivity|].
    destruct (is_list (ctype c)); [reflexivity|].
    destruct (is_map (ctype c)); [reflexivity | discriminate].
Qed.

(** A table with a repeated column name and a nested column: the call
    raises [KeyError] and the held table stays the input. *)
Example duplicate_names_table_fails :
  let t := [("a", TestData.id_column); ("a", TestData.id_column);
            ("person", TestData.person_column)] in
  flatten_all_columns 1 (mkFlattener (Some t) []) true true false
  = (Raised KeyError, mkFlattener (Some t) [LogInfoFlattening 3]).
Proof. reflexivity. Qed.

(** X9.  A list column is flattened to as many cells as its rows hold
    elements, the other columns keep their rows: on a table of a
    non-nested column followed by a list column the pass succeeds
    exactly when the list rows hold as many elements in total as the
    table has rows, and raises the engine's [ArrowInvalid] otherwise. *)
Theorem list_beside_primitive_needs_equal_length :
  forall (n1 n2 : string) (c1 c2 : Column) (composite_names : bool),
    n1 <> n2 ->
    is_nested (ctype c1) = false ->
    is_list (ctype c2) = true ->
    _flatten_nested_columns [(n1, c1); (n2, c2)] composite_names false
    = if Nat.eqb (list_sum (map row_length (cvalues c2))) (len c1)
      then Ok [(n1, c1); (n2, list_flatten c2)]
      else Raise ArrowInvalid.
Proof.
  intros n1 n2 c1 c2 cn Hne Hp Hl.
  assert (String.eqb n1 n2 = false) as E12 by (apply String.eqb_neq; exact Hne).
  assert (String.eqb n2 n1 = false) as E21 by (rewrite String.eqb_sym; exact E12).
  destruct (nested_kinds _ Hp) as [Hs1 [Hl1 Hm1]].
  assert (is_nested (ctype c2) = true /\ is_struct (ctype c2) = false) as [Hn2 Hs2]
      by (destruct (ctype c2); try discriminate; auto).
  unfold _flatten_nested_columns, _build_flattened_arrays_dict. simpl.
  unfold build_field at 1. simpl fst. simpl snd. rewrite Hp, Hs1, Hl1, Hm1. simpl.
  unfold Table_column at 1. simpl. rewrite String.eqb_refl, E21. simpl.
  unfold build_field. simpl fst. simpl snd. rewrite Hn2, Hs2, Hl. simpl.
  unfold _flatten_list_field, Table_column. simpl. rewrite String.eqb_refl, E12. simpl.
  unfold dict_update, dict_zip, dict_update. simpl. rewrite E12. simpl.
  rewrite andb_true_r. unfold len at 1. simpl. rewrite list_flatten_length.
  reflexivity.
Qed.

Lemma list_beside_primitive_needs_equal_length_witness :
  _flatten_nested_columns
    [("id", TestData.id_column);
     ("l", mkColumn (TList (TPrim int64)) [SList [SInt 1; SInt 2; SInt 3]; SNull])]
    false false
  = Raise ArrowInvalid.
Proof.
  apply (list_beside_primitive_needs_equal_length "id" "l" TestData.id_column
           (mkColumn (TList (TPrim int64)) [SList [SInt 1; SInt 2; SInt 3]; SNull])
           false).
  - discriminate.
  - reflexivity.
  - reflexivity.
Defined.

(* ================================================================== *)
(** ** The held table after a call *)

Lemma flatten_all_loop_state (fuel : nat) (r cn keep : bool) :
  forall t lg o self',
    flatten_all_loop fuel r cn keep t lg = (o, self') ->
    (exists more, log self' = lg ++ more)
    /\ (forall t', o = Returned t' -> _table self' = Some t')
    /\ (forall e, o = Raised e ->
        exists held,
          _table self' = Some held
          /\ _has_nested_columns held = true
          /\ _flatten_nested_columns held cn keep = Raise e).
Proof.
  induction fuel as [|fuel IH]; intros t lg o self'; simpl;
    destruct (_has_nested_columns t) eqn:En.
  - intros H. injection H as <- <-. simpl. split; [exists []; symmetry; apply app_nil_r|].
    split; discriminate.
  - intros H. injection H as <- <-. simpl. split; [exists []; symmetry; apply app_nil_r|].
    split; [intros t' Ht'; injection Ht' as <-; reflexivity | discriminate].
  - destruct (_flatten_nested_columns t cn keep) as [t1|e] eqn:E.
    + destruct r; simpl.
      * intros H. destruct (IH _ _ _ _ H) as [[more Hm] [Hret Hraise]].
        split; [|split; assumption].
        exists ([LogInfoFlattening (List.length t); LogInfoPerformance] ++ more).
        rewrite Hm, <- !app_assoc. reflexivity.
      * intros H. injection H as <- <-. simpl. split; [|split].
        -- exists [LogInfoFlattening (List.length t); LogInfoPerformance].
           rewrite <- app_assoc. reflexivity.
        -- intros t' Ht'. injection Ht' as <-. reflexivity.
        -- discriminate.
    + intros H. injection H as <- <-. simpl. split; [eauto|]. split; [discriminate|].
      intros e' He'. injection He' as <-. exists t. auto.
  - intros H. injection H as <- <-. simpl. split; [exists []; symmetry; apply app_nil_r|].
    split; [intros t' Ht'; injection Ht' as <-; reflexivity | discriminate].
Qed.

Lemma flatten_all_columns_retry (self : Flattener) (held : Table) (e : exn)
  (fuel : nat) (r cn keep : bool) :
  _table self = Some held ->
  _has_nested_columns held = true ->
  _flatten_nested_columns held cn keep = Raise e ->
  fst (flatten_all_columns (S fuel) self r cn keep) = Raised e.
Proof.
  intros Hh Hn Hp. unfold flatten_all_columns, _validate_table_set. rewrite Hh.
  simpl. rewrite Hn, Hp. reflexivity.
Qed.

(** X10.  What [flatten_all_columns] leaves behind.  The log only
    grows.  A returned table is the held table.  When the call raises
    with a table set, the held table is the one the failing pass was
    run on (the input, or the result of the passes that succeeded
    before), and calling again with the same naming and retention
    flags raises the same error again. *)
Theorem flatten_all_columns_state :
  forall (fuel : nat) (self : Flattener) (recursive composite_names keep : bool),
    let outcome := fst (flatten_all_columns fuel self recursive composite_names keep) in
    let self' := snd (flatten_all_columns fuel self recursive composite_names keep) in
    (exists more, log self' = log self ++ more)
    /\ (forall t', outcome = Returned t' -> _table self' = Some t')
    /\ (forall e,
          outcome = Raised e ->
          _table self <> None ->
          exists held,
            _table self' = Some held
            /\ _flatten_nested_columns held composite_names keep = Raise e
            /\ forall fuel2 recursive2,
                 fst (flatten_all_columns (S fuel2) self' recursive2 composite_names keep)
                 = Raised e).
Proof.
  intros fuel self r cn keep. cbv zeta.
  destruct (flatten_all_columns fuel self r cn keep) as [o self'] eqn:E. simpl.
  unfold flatten_all_columns, _validate_table_set in E.
  destruct (_table self) as [t|] eqn:Et.
  - destruct (flatten_all_loop_state _ _ _ _ _ _ _ _ E) as [Hlog [Hret Hraise]].
    split; [exact Hlog|]. split; [exact Hret|].
    intros e He _. destruct (Hraise e He) as [held [Hh [Hn Hp]]].
    exists held. split; [exact Hh|]. split; [exact Hp|].
    intros fuel2 r2. eapply flatten_all_columns_retry; eassumption.
  - injection E as <- <-. simpl. split; [eauto|]. split; [discriminate|].
    intros e _ H. congruence.
Qed.

(** A struct column holding a map column with a null row: the first
    pass succeeds, the second raises, and the held table is the first
    pass's result, not the table that was set. *)
Example failure_keeps_earlier_passes :
  let t := [("s", mkColumn (TStruct [("m", TMap (TPrim string_) (TPrim int64))])
                           [SStruct [SMap [(SStr "x", SInt 1)]]; SStruct [SNull]])] in
  flatten_all_columns 2 (mkFlattener (Some t) []) true false false
  = (Raised TypeError,
     mkFlattener (Some [("m", Inputs.null_map_column)])
                 [LogInfoFlattening 1; LogInfoPerformance; LogInfoFlattening 1]).
Proof. reflexivity. Qed.

(** X11.  A recursive call is a single non-recursive call followed,
    when that one returned, by a recursive call on the state it left:
    outcome, held table and log lines are the same. *)
Theorem recursive_is_repeated_single_pass :
  forall (fuel : nat) (self : Flattener) (composite_names keep : bool),
    flatten_all_columns (S fuel) self true composite_names keep
    = match flatten_all_columns 1 self false composite_names keep with
      | (Returned _, self1) => flatten_all_columns fuel self1 true composite_names keep
      | failed => failed
      end.
Proof.
  intros fuel self cn keep. unfold flatten_all_columns, _validate_table_set.
  destruct (_table self) as [t|]; [|reflexivity]. simpl.
  destruct (_has_nested_columns t) eqn:En.
  - destruct (_flatten_nested_columns t cn keep) as [t1|e]; reflexivity.
  - simpl. symmetry. apply flatten_all_loop_flat. exact En.
Qed.

(* ================================================================== *)
(** ** One pass against the engine's generic struct flatten *)

Lemma filter_name_fresh (t : Table) (name : string) :
  ~ In name (map fst t) -> filter (fun nc => String.eqb (fst nc) name) t = [].
Proof.
  induction t as [|[n c] rest IH]; simpl; intros Hn; [reflexivity|].
  destruct (String.eqb n name) eqn:E.
  - apply String.eqb_eq in E. tauto.
  - apply IH. tauto.
Qed.

Lemma filter_name_unique (t : Table) (name : string) (c : Column) :
  NoDup (map fst t) -> In (name, c) t ->
  filter (fun nc => String.eqb (fst nc) name) t = [(name, c)].
Proof.
  induction t as [|[n c'] rest IH]; simpl; intros Hnd Hin; [destruct Hin|].
  inversion Hnd as [|? ? Hn Hrest]; subst.
  destruct Hin as [Heq | Hin].
  - injection Heq as -> ->. rewrite String.eqb_refl.
    rewrite filter_name_fresh by exact Hn. reflexivity.
  - destruct (String.eqb n name) eqn:E.
    + apply String.eqb_eq in E. subst n. exfalso. apply Hn.
      apply in_map_iff. exists (name, c). auto.
    + apply IH; assumption.
Qed.

Lemma Table_column_NoDup (t : Table) (name : string) (c : Column) :
  NoDup (map fst t) -> In (name, c) t -> Table_column t name = Ok c.
Proof.
  intros Hnd Hin. unfold Table_column.
  rewrite (filter_name_unique t name c Hnd Hin). reflexivity.
Qed.

Lemma Table_flatten_app (t1 t2 : Table) :
  Table_flatten (t1 ++ t2) = Table_flatten t1 ++ Table_flatten t2.
Proof. unfold Table_flatten. apply flat_map_app. Qed.

Lemma Table_flatten_struct_items (name : string) (c : Column) (fs : list Field) :
  ctype c = TStruct fs ->
  Table_flatten [(name, c)] = struct_items name true c 0 fs.
Proof.
  intros Hty. unfold Table_flatten. simpl. rewrite Hty, app_nil_r.
  unfold ChunkedArray_flatten. rewrite Hty.
  rewrite <- (zip_struct_items name true c fs 0). reflexivity.
Qed.

Lemma NoDup_app_l (A : Type) (l1 l2 : list A) : NoDup (l1 ++ l2) -> NoDup l1.
Proof.
  induction l1 as [|x l1 IH]; simpl; intros H; [constructor|].
  inversion H as [|? ? Hx Hr]; subst. constructor.
  - intros Hin. apply Hx. apply in_or_app. left. exact Hin.
  - apply IH. exact Hr.
Qed.

Lemma NoDup_app_r (A : Type) (l1 l2 : list A) : NoDup (l1 ++ l2) -> NoDup l2.
Proof.
  induction l1 as [|x l1 IH]; simpl; intros H; [exact H|].
  inversion H; subst. apply IH. assumption.
Qed.

Lemma build_field_struct_only (t : Table) (d : Dict) (name : string) (c : Column) :
  Table_column t name = Ok c ->
  is_nested (ctype c) = false \/ is_struct (ctype c) = true ->
  NoDup (dict_keys d ++ map fst (Table_flatten [(name, c)])) ->
  build_field t true false d (name, ctype c) = Ok (d ++ Table_flatten [(name, c)]).
Proof.
  intros Hc Hkind Hnd. destruct Hkind as [Hp | Hs].
  - destruct (nested_kinds _ Hp) as [Hs [Hl Hm]].
    assert (Table_flatten [(name, c)] = [(name, c)]) as Hflat
        by (unfold Table_flatten; simpl; destruct (ctype c); try discriminate; reflexivity).
    rewrite Hflat in *. simpl in Hnd.
    unfold build_field. simpl fst. simpl snd. rewrite Hp, Hs, Hl, Hm, Hc. simpl.
    f_equal. apply dict_set_fresh.
    apply NoDup_remove_2 in Hnd. rewrite app_nil_r in Hnd. exact Hnd.
  - destruct (ctype c) as [| fs | | | | |] eqn:Hty; try discriminate.
    rewrite (Table_flatten_struct_items name c fs Hty) in *.
    assert (_flatten_struct_field t (name, TStruct fs) true
            = Ok (dict_update [] (struct_items name true c 0 fs))) as Hf
        by (apply (_flatten_struct_field_eq t (name, TStruct fs) true c fs);
            [reflexivity | exact Hty | exact Hc]).
    rewrite (build_field_struct t (name, TStruct fs) c true false d _ eq_refl Hc Hf).
    f_equal. rewrite (dict_update_fresh (struct_items name true c 0 fs) []).
    + simpl. apply dict_update_fresh. exact Hnd.
    + simpl. eapply NoDup_app_r. exact Hnd.
Qed.

Lemma build_fields_struct_only (t : Table) (suf : Table) :
  forall pre,
    t = pre ++ suf ->
    NoDup (map fst t) ->
    NoDup (map fst (Table_flatten t)) ->
    (forall nc, In nc t ->
                is_nested (ctype (snd nc)) = false \/ is_struct (ctype (snd nc)) = true) ->
    for_each (build_field t true false) (schema suf) (Table_flatten pre)
    = Ok (Table_flatten t).
Proof.
  induction suf as [|[name c] rest IH]; intros pre Ht Hnames Hflat Hkinds.
  - simpl. rewrite Ht, app_nil_r. reflexivity.
  - change (for_each (build_field t true false) (schema ((name, c) :: rest))
                     (Table_flatten pre))
      with (bind (build_field t true false (Table_flatten pre) (name, ctype c))
                 (fun s' => for_each (build_field t true false) (schema rest) s')).
    assert (In (name, c) t) as Hin by (rewrite Ht; apply in_or_app; right; left; reflexivity).
    assert (Table_flatten t
            = (Table_flatten pre ++ Table_flatten [(name, c)]) ++ Table_flatten rest) as Hsplit.
    { rewrite Ht. rewrite Table_flatten_app.
      change ((name, c) :: rest) with ([(name, c)] ++ rest).
      rewrite Table_flatten_app, app_assoc. reflexivity. }
    rewrite (build_field_struct_only t (Table_flatten pre) name c).
    + cbn [bind]. rewrite <- Table_flatten_app.
      apply IH; try assumption. rewrite Ht, <- app_assoc. reflexivity.
    + apply Table_column_NoDup; assumption.
    + apply (Hkinds (name, c) Hin).
    + rewrite Hsplit, map_app in Hflat. apply NoDup_app_l in Hflat.
      rewrite map_app in Hflat. exact Hflat.
Qed.

(** X12.  On a table whose nested columns are all structs, whose
    column names are pairwise distinct and stay so after expansion,
    and whose columns have one number of rows, one pass of
    [flatten_all_columns] with composite names and without kept
    columns builds the very table the engine's generic struct flatten
    (the pass of [flatten_struct_columns]) builds: same columns, same
    names parent.child, same order. *)
Theorem pass_agrees_with_struct_flatten :
  forall (t : Table) (rows : nat),
    NoDup (map fst t) ->
    NoDup (map fst (Table_flatten t)) ->
    (forall nc, In nc t ->
                is_nested (ctype (snd nc)) = false \/ is_struct (ctype (snd nc)) = true) ->
    row_count_is rows t ->
    _flatten_nested_columns t true false = Ok (Table_flatten t).
Proof.
  intros t rows Hnames Hflat Hkinds Hrows.
  unfold _flatten_nested_columns, _build_flattened_arrays_dict.
  pose proof (build_fields_struct_only t t [] eq_refl Hnames Hflat Hkinds) as Hb.
  simpl in Hb. rewrite Hb. simpl.
  pose proof (Table_flatten_row_count rows t Hrows) as Hr.
  destruct (Table_flatten t) as [|[k c0] rest]; [reflexivity|].
  simpl. unfold row_count_is in Hr. rewrite Forall_forall in Hr.
  assert (forallb (fun nc => Nat.eqb (len (snd nc)) (len c0)) rest = true) as ->;
    [|reflexivity].
  apply forallb_forall. intros nc Hin. apply Nat.eqb_eq.
  rewrite (Hr nc (or_intror Hin)). symmetry. apply (Hr (k, c0) (or_introl eq_refl)).
Qed.

Lemma pass_agrees_with_struct_flatten_witness :
  _flatten_nested_columns
    [("id", TestData.id_column); ("person", TestData.person_column)] true false
  = Ok (Table_flatten [("id", TestData.id_column); ("person", TestData.person_column)]).
Proof.
  apply (pass_agrees_with_struct_flatten
           [("id", TestData.id_column); ("person", TestData.person_column)] 2).
  - repeat constructor; simpl; intuition discriminate.
  - repeat constructor; simpl; intuition discriminate.
  - simpl. intros nc [<- | [<- | []]]; simpl; auto.
  - repeat constructor.
Defined.

(* ================================================================== *)
(** ** Types of the columns built for a map *)

Lemma key_objects_type (kt : DataType) (rows : list Scalar) :
  ctype (pa_array (flat_map (row_key_objects kt) rows))
  = match flat_map map_keys rows with [] => TPrim null_ | _ => kt end.
Proof.
  induction rows as [|row rest IH]; simpl; [reflexivity|].
  unfold row_key_objects at 1. destruct (map_keys row) as [|k ks]; simpl.
  - exact IH.
  - reflexivity.
Qed.

Lemma value_objects_type (vt : DataType) (rows : list Scalar) :
  ctype (pa_array (flat_map (row_value_objects vt) rows))
  = match flat_map map_values rows with [] => TPrim null_ | _ => vt end.
Proof.
  induction rows as [|row rest IH]; simpl; [reflexivity|].
  unfold row_value_objects at 1. destruct (map_values row) as [|v vs]; simpl.
  - exact IH.
  - reflexivity.
Qed.

Lemma _flatten_map_field_arrays (t : Table) (field : Field) (cn : bool)
  (rows : list Scalar) (kt vt : DataType) :
  Table_column t (fst field) = Ok (mkColumn (TMap kt vt) rows) ->
  (forall row, In row rows -> exists entries, row = SMap entries) ->
  _flatten_map_field t field cn
  = Ok (dict_zip
          [((if cn then (fst field ++ ".")%string else "") ++ "keys")%string;
           ((if cn then (fst field ++ ".")%string else "") ++ "values")%string]
          [pa_array (flat_map (row_key_objects kt) rows);
           pa_array (flat_map (row_value_objects vt) rows)]).
Proof.
  intros Hc Hrows. unfold _flatten_map_field. rewrite Hc. simpl bind.
  pose proof (map_outer_loop kt vt rows Hrows [] ([], [])) as Hloop. simpl in Hloop.
  unfold len at 1. simpl cvalues. rewrite Hloop. reflexivity.
Qed.

(** X15.  The key and value columns of a flattened map take their
    types from the entries found, not from the declared map type: for
    a map column without null rows they have the declared key and
    value types when the column holds at least one entry, and the null
    type when it holds none (no rows, or only empty maps). *)
Theorem map_field_types_inferred :
  forall (t : Table) (field : Field) (composite_names : bool)
         (column : Column) (kt vt : DataType),
    Table_column t (fst field) = Ok column ->
    ctype column = TMap kt vt ->
    (forall row, In row (cvalues column) -> exists entries, row = SMap entries) ->
    exists d keys values,
      _flatten_map_field t field composite_names = Ok d
      /\ dict_get d (subfield_name (fst field) composite_names "keys") = Some keys
      /\ dict_get d (subfield_name (fst field) composite_names "values") = Some values
      /\ ctype keys
         = (if Nat.eqb (list_sum (map entry_count (cvalues column))) 0
            then TPrim null_ else kt)
      /\ ctype values
         = (if Nat.eqb (list_sum (map entry_count (cvalues column))) 0
            then TPrim null_ else vt).
Proof.
  intros t field cn [ty rows] kt vt Hc Hty Hrows. simpl in Hty, Hrows. subst ty.
  rewrite (_flatten_map_field_arrays t field cn rows kt vt Hc Hrows).
  assert (forall s : string,
             ((if cn then (fst field ++ ".")%string else "") ++ s)%string
             = subfield_name (fst field) cn s) as Hname
      by (intros s; unfold subfield_name; destruct cn;
          [apply string_append_assoc | reflexivity]).
  rewrite !Hname.
  assert (String.eqb (subfield_name (fst field) cn "keys")
                     (subfield_name (fst field) cn "values") = false) as Hkv
      by (apply String.eqb_neq; intros H; apply subfield_name_inj in H; discriminate).
  remember (subfield_name (fst field) cn "keys") as K.
  remember (subfield_name (fst field) cn "values") as V.
  eexists. exists (pa_array (flat_map (row_key_objects kt) rows)),
             (pa_array (flat_map (row_value_objects vt) rows)).
  split; [reflexivity|]. simpl cvalues.
  split; [|split; [|split]].
  - unfold dict_zip, dict_update. simpl. rewrite Hkv. simpl.
    rewrite String.eqb_refl. reflexivity.
  - unfold dict_zip, dict_update. simpl. rewrite Hkv. simpl.
    rewrite Hkv, String.eqb_refl. reflexivity.
  - rewrite key_objects_type, <- map_keys_count.
    destruct (flat_map map_keys rows); reflexivity.
  - rewrite value_objects_type, <- map_values_count.
    destruct (flat_map map_values rows); reflexivity.
Qed.

Lemma map_field_types_inferred_witness :
  exists d keys values,
    _flatten_map_field
      [("m", mkColumn (TMap (TPrim string_) (TPrim int64)) [SMap []; SMap []])]
      ("m", TMap (TPrim string_) (TPrim int64)) false = Ok d
    /\ dict_get d "keys" = Some keys
    /\ dict_get d "values" = Some values
    /\ ctype keys = TPrim null_
    /\ ctype values = TPrim null_.
Proof.
  apply (map_field_types_inferred
           [("m", mkColumn (TMap (TPrim string_) (TPrim int64)) [SMap []; SMap []])]
           ("m", TMap (TPrim string_) (TPrim int64)) false
           (mkColumn (TMap (TPrim string_) (TPrim int64)) [SMap []; SMap []])
           (TPrim string_) (TPrim int64) eq_refl eq_refl).
  simpl. intros row [<- | [<- | []]]; eexists; reflexivity.
Defined.

(* ================================================================== *)
(** ** The column names of a pass's result *)

Lemma map_fst_combine (A B : Type) (l1 : list A) (l2 : list B) :
  List.length l1 = List.length l2 -> map fst (combine l1 l2) = l1.
Proof.
  revert l2. induction l1 as [|a l1 IH]; intros [|b l2]; simpl; intros H;
    try discriminate; [reflexivity|].
  rewrite IH by lia. reflexivity.
Qed.

Lemma dict_zip_keys_In (names : list string) (columns : list Column) (x : string) :
  List.length names = List.length columns ->
  (In x (dict_keys (dict_zip names columns)) <-> In x names).
Proof.
  intros Hlen. unfold dict_zip. rewrite dict_keys_update_In, map_fst_combine by exact Hlen.
  simpl. tauto.
Qed.

Lemma _generate_subfield_names_length (field : Field) (cn : bool) :
  List.length (_generate_subfield_names field cn) = List.length (type_fields (snd field)).
Proof. unfold _generate_subfield_names. destruct cn; apply length_map. Qed.

Lemma build_field_keys (t : Table) (cn keep : bool) (d d' : Dict) (field : Field) :
  In field (schema t) ->
  build_field t cn keep d field = Ok d' ->
  forall x, In x (dict_keys d') <-> In x (dict_keys d) \/ In x (output_names cn keep field).
Proof.
  intros Hin H x. unfold build_field in H. unfold output_names.
  apply bind_Ok_inv in H. destruct H as [d1 [H1 H]].
  assert (In x (dict_keys d1) <->
          In x (dict_keys d)
          \/ In x (if negb (is_nested (snd field)) || keep then [fst field] else []))
    as Hd1.
  { destruct (negb (is_nested (snd field)) || keep).
    - apply bind_Ok_inv in H1. destruct H1 as [c [_ H1]]. injection H1 as <-.
      rewrite dict_keys_set_In. simpl. intuition auto.
    - injection H1 as <-. simpl. tauto. }
  rewrite in_app_iff.
  assert (forall sub names,
             (In x (dict_keys sub) <-> In x names) ->
             (In x (dict_keys (dict_update d1 sub)) <->
              In x (dict_keys d)
              \/ In x (if negb (is_nested (snd field)) || keep then [fst field] else [])
              \/ In x names)) as Hmerge.
  { intros sub names Hsub. rewrite dict_keys_update_In, Hd1.
    fold (dict_keys sub). rewrite Hsub. tauto. }
  destruct (is_struct (snd field)) eqn:Es.
  { apply bind_Ok_inv in H. destruct H as [sub [Hs H]]. injection H as <-.
    apply Hmerge. unfold _flatten_struct_field in Hs.
    apply bind_Ok_inv in Hs. destruct Hs as [c [Hc Hs]]. injection Hs as <-.
    apply dict_zip_keys_In. rewrite _generate_subfield_names_length.
    pose proof (Table_column_schema t field c Hin Hc) as Hty.
    unfold ChunkedArray_flatten. rewrite Hty.
    destruct (snd field); try discriminate. simpl.
    rewrite length_map, length_combine, length_seq, Nat.min_id. reflexivity. }
  destruct (is_list (snd field)).
  { apply bind_Ok_inv in H. destruct H as [sub [Hs H]]. injection H as <-.
    apply Hmerge. unfold _flatten_list_field in Hs.
    apply bind_Ok_inv in Hs. destruct Hs as [c [Hc Hs]]. injection Hs as <-.
    apply dict_zip_keys_In. reflexivity. }
  destruct (is_map (snd field)).
  { apply bind_Ok_inv in H. destruct H as [sub [Hs H]]. injection H as <-.
    apply Hmerge. unfold _flatten_map_field in Hs.
    apply bind_Ok_inv in Hs. destruct Hs as [c [Hc Hs]].
    apply bind_Ok_inv in Hs. destruct Hs as [acc [_ Hs]]. injection Hs as <-.
    apply dict_zip_keys_In. reflexivity. }
  injection H as <-. rewrite Hd1. simpl. tauto.
Qed.

Lemma build_fields_keys (t : Table) (cn keep : bool) (fields : list Field) :
  (forall field, In field fields -> In field (schema t)) ->
  forall d d',
    for_each (build_field t cn keep) fields d = Ok d' ->
    forall x,
      In x (dict_keys d') <->
      In x (dict_keys d)
      \/ exists field, In field fields /\ In x (output_names cn keep field).
Proof.
  induction fields as [|field rest IH]; intros Hsub d d' H x; simpl in H.
  - injection H as <-. split; [auto|]. intros [Hx | [f [[] _]]]. exact Hx.
  - apply bind_Ok_inv in H. destruct H as [d1 [H1 H]].
    rewrite (IH (fun f Hf => Hsub f (or_intror Hf)) d1 d' H x).
    rewrite (build_field_keys t cn keep d d1 field (Hsub field (or_introl eq_refl)) H1 x).
    split.
    + intros [[Hx | Hx] | [f [Hf Hx]]]; [left; exact Hx | right | right].
      * exists field. split; [left; reflexivity | exact Hx].
      * exists f. split; [right; exact Hf | exact Hx].
    + intros [Hx | [f [[<- | Hf] Hx]]]; [left; left; exact Hx | left; right; exact Hx |].
      right. exists f. auto.
Qed.

(** X16.  The column names of the table a pass returns are fixed by
    the schema and the flags, whatever the data: a name is a column of
    the result exactly when some field of the input schema writes
    under it (its own name when it is copied or is a list, its
    sub-field names for a struct, its keys and values names for a
    map). *)
Theorem pass_result_names :
  forall (t t' : Table) (composite_names keep : bool),
    _flatten_nested_columns t composite_names keep = Ok t' ->
    forall name,
      In name (map fst t') <->
      exists field, In field (schema t) /\ In name (output_names composite_names keep field).
Proof.
  intros t t' cn keep H name. unfold _flatten_nested_columns in H.
  apply bind_Ok_inv in H. destruct H as [d [Hb Hp]].
  apply pa_table_Ok in Hp. destruct Hp as [-> _].
  unfold _build_flattened_arrays_dict in Hb.
  pose proof (build_fields_keys t cn keep (schema t) (fun f Hf => Hf) [] d Hb name) as Hk.
  unfold dict_keys in Hk. rewrite Hk. simpl. tauto.
Qed.

Lemma pass_result_names_witness :
  In "person.age"
     (map fst [("id", TestData.id_column);
               ("person.name", mkColumn (TPrim string_) [SStr "Alice"; SStr "Bob"]);
               ("person.age", mkColumn (TPrim int64) [SInt 30; SInt 25])])
  <-> exists field,
        In field (schema [("id", TestData.id_column); ("person", TestData.person_column)])
        /\ In "person.age" (output_names true false field).
Proof.
  apply (pass_result_names
           [("id", TestData.id_column); ("person", TestData.person_column)]
           [("id", TestData.id_column);
            ("person.name", mkColumn (TPrim string_) [SStr "Alice"; SStr "Bob"]);
            ("person.age", mkColumn (TPrim int64) [SInt 30; SInt 25])]
           true false eq_refl "person.age").
Defined.

(* ================================================================== *)
(** ** Columns a pass leaves as they are *)

Lemma build_field_primitive (t : Table) (cn keep : bool) (d : Dict)
  (name : string) (c : Column) :
  is_nested (ctype c) = false ->
  Table_column t name = Ok c ->
  build_field t cn keep d (name, ctype c) = Ok (dict_set d name c).
Proof.
  intros Hp Hc. destruct (nested_kinds _ Hp) as [Hs [Hl Hm]].
  unfold build_field. simpl fst. simpl snd. rewrite Hp, Hs, Hl, Hm, Hc. reflexivity.
Qed.

(** X17.  A pass leaves a non-nested column as it is: when the pass
    succeeds, the result holds under the column's name the very column
    of the input, unless a later field of the schema writes under that
    name. *)
Theorem primitive_column_unchanged :
  forall (t t' : Table) (composite_names keep : bool)
         (pre post : Table) (name : string) (c : Column),
    t = pre ++ (name, c) :: post ->
    is_nested (ctype c) = false ->
    (forall later, In later (schema post) ->
                   ~ In name (output_names composite_names keep later)) ->
    _flatten_nested_columns t composite_names keep = Ok t' ->
    dict_get t' name = Some c.
Proof.
  intros t t' cn keep pre post name c Ht Hp Hlater H.
  unfold _flatten_nested_columns in H.
  apply bind_Ok_inv in H. destruct H as [d [Hb Hpa]].
  apply pa_table_Ok in Hpa. destruct Hpa as [-> _].
  unfold _build_flattened_arrays_dict in Hb.
  assert (schema t = schema pre ++ (name, ctype c) :: schema post) as Hs
      by (rewrite Ht; unfold schema; rewrite map_app; reflexivity).
  rewrite Hs, for_each_app in Hb.
  apply bind_Ok_inv in Hb. destruct Hb as [d0 [_ Hb]]. simpl in Hb.
  apply bind_Ok_inv in Hb. destruct Hb as [d1 [Hstep Hrest]].
  rewrite (build_fields_frame t cn keep (schema post) name Hlater d1 d Hrest).
  assert (exists c', Table_column t name = Ok c') as [c' Hc].
  { apply (build_field_Ok_column t cn keep d0 d1 (name, ctype c)); [|exact Hstep].
    unfold accesses_column. simpl. rewrite Hp. reflexivity. }
  assert (ctype c' = ctype c) as Hty.
  { apply (Table_column_schema t (name, ctype c) c'); [|exact Hc].
    rewrite Hs. apply in_or_app. right. left. reflexivity. }
  assert (c' = c) as ->.
  { destruct (Table_column_filter _ _ _ Hc) as [n Hf].
    assert (In (name, c) (filter (fun nc => String.eqb (fst nc) name) t)) as Hin.
    { apply filter_In. split; [|apply String.eqb_refl].
      rewrite Ht. apply in_or_app. right. left. reflexivity. }
    rewrite Hf in Hin. destruct Hin as [Heq | []]. injection Heq as _ ->. reflexivity. }
  rewrite (build_field_primitive t cn keep d0 name c Hp Hc) in Hstep.
  injection Hstep as <-. apply dict_get_set_same.
Qed.

Lemma primitive_column_unchanged_witness :
  dict_get [("id", TestData.id_column);
            ("person.name", mkColumn (TPrim string_) [SStr "Alice"; SStr "Bob"]);
            ("person.age", mkColumn (TPrim int64) [SInt 30; SInt 25])] "id"
  = Some TestData.id_column.
Proof.
  apply (primitive_column_unchanged
           [("id", TestData.id_column); ("person", TestData.person_column)]
           [("id", TestData.id_column);
            ("person.name", mkColumn (TPrim string_) [SStr "Alice"; SStr "Bob"]);
            ("person.age", mkColumn (TPrim int64) [SInt 30; SInt 25])]
           true false [] [("person", TestData.person_column)] "id" TestData.id_column
           eq_refl eq_refl).
  - intros later [<- | []]. simpl. intros [H | [H | []]]; discriminate H.
  - reflexivity.
Defined.

(* ================================================================== *)
(** ** The two operations one after the other *)

Lemma nested_false_struct_false (t : Table) :
  _has_nested_columns t = false -> _has_struct_columns t = false.
Proof.
  intros H. unfold _has_struct_columns.
  destruct (existsb (fun field => is_struct (snd field)) (schema t)) eqn:E;
    [|reflexivity].
  apply existsb_exists in E. destruct E as [field [Hin Hs]].
  pose proof (_has_nested_columns_false t H field Hin) as Hn.
  destruct (snd field); simpl in *; discriminate.
Qed.

(** X18.  After a recursive [flatten_all_columns] has returned,
    [flatten_struct_columns] finds nothing to do: it returns the held
    table and leaves held table and log as they are. *)
Theorem struct_flatten_after_full_flatten :
  forall (fuel : nat) (self self' : Flattener) (composite_names keep : bool) (t' : Table),
    flatten_all_columns fuel self true composite_names keep = (Returned t', self') ->
    forall fuel2 recursive2,
      flatten_struct_columns fuel2 self' recursive2 = (Returned t', self').
Proof.
  intros fuel self self' cn keep t' H fuel2 r2.
  unfold flatten_all_columns, _validate_table_set in H.
  destruct (_table self) as [t|]; [|discriminate].
  apply flatten_all_loop_recursive_returned in H. destruct H as [Hflat Hself].
  destruct self' as [held lg']. simpl in Hself. injection Hself as ->.
  unfold flatten_struct_columns, _validate_table_set. simpl.
  apply flatten_struct_loop_flat. apply nested_false_struct_false. exact Hflat.
Qed.

Lemma struct_flatten_after_full_flatten_witness :
  let first_run :=
    flatten_all_columns 2 (mkFlattener (Some TestData.composite_keys_table) [])
                        true true false in
  flatten_struct_columns 3 (snd first_run) true = first_run.
Proof.
  cbv zeta.
  destruct (flatten_all_columns 2 (mkFlattener (Some TestData.composite_keys_table) [])
                                true true false) as [o self'] eqn:E.
  assert (exists t', o = Returned t') as [t' Ho]
      by (vm_compute in E; injection E as <- _; eauto).
  subst o. simpl.
  apply (struct_flatten_after_full_flatten 2 _ _ true false _ E).
Defined.

(* ================================================================== *)
(** ** List columns through a whole pass *)






(** The two passes of the lemma above. *)
Example list_law_failing_passes :
  _flatten_nested_columns ListInputs.uneven_table false false = Raise ArrowInvalid
  /\ _flatten_nested_columns ListInputs.shadowed_table false false
     = Ok [("l", mkColumn (TPrim int64) [SInt 7; SInt 8])].
Proof. split; reflexivity. Qed.
